(** * SQLAlchemy instrumentor: a shallow embedding of
    [opentelemetry/instrumentation/sqlalchemy/__init__.py]

    The module defines [SQLAlchemyInstrumentor] with the two methods
    [_instrument] and [_uninstrument].  Both act on process-wide state: the
    attributes of the [sqlalchemy] modules that hold the engine-creation
    entry points, and the engines' event subscriptions made when an
    [EngineTracer] is constructed.  The embedding threads that state
    explicitly through a small state-and-exception monad. *)

From stdpp Require Import gmap strings list fin_maps.

#[local] Set Warnings "-register-all".
Open Scope string_scope.
Open Scope nat_scope.
Open Scope list_scope.

(** ** Python values *)

(** What a keyword argument of [instrument] can hold.  Objects that the
    module only passes around (engines, tracer providers) are opaque and
    carry their identity. *)
Inductive value : Type :=
| VNone
| VBool (b : bool)
| VInt (n : Z)
| VStr (s : string)
| VList (items : list value)
| VTuple (items : list value)
| VGenerator (items : list value)
| VSet (items : list value)
| VDict (items : list (string * value))
| VObject (id : nat).

(** [x is not None] *)
Definition is_not_None (v : value) : bool :=
  match v with
  | VNone => false
  | _ => true
  end.

(** [isinstance(x, collections.abc.Sequence)]: lists, tuples and strings
    are registered sequences; generators, sets, mappings and scalars are
    not. *)
Definition isinstance_Sequence (v : value) : bool :=
  match v with
  | VList _ | VTuple _ | VStr _ => true
  | _ => false
  end.

Fixpoint chars (s : string) : list value :=
  match s with
  | EmptyString => []
  | String c s' => VStr (String c EmptyString) :: chars s'
  end.

(** The elements [for engine in x] visits, in order. *)
Definition iter (v : value) : list value :=
  match v with
  | VList l | VTuple l | VGenerator l | VSet l => l
  | VStr s => chars s
  | VDict kvs => (λ kv, VStr kv.1) <$> kvs
  | _ => []
  end.

(** [kwargs.get(key)] and [kwargs.get(key, default)] *)
Definition kwargs_get (kwargs : gmap string value) (key : string) : value :=
  default VNone (kwargs !! key).

Definition kwargs_get_default
    (kwargs : gmap string value) (key : string) (d : value) : value :=
  default d (kwargs !! key).

(** ** Release tuples *)

(** [a >= b] on tuples of integers, as Python compares them: by the first
    position where they differ, and by length when one is a prefix of the
    other. *)
Fixpoint tuple_ge (a b : list nat) : bool :=
  match a, b with
  | _, [] => true
  | [], _ :: _ => false
  | x :: a', y :: b' => if (x =? y)%nat then tuple_ge a' b' else (y <=? x)%nat
  end.

(** ** Callables, wrappers and tracers *)

(** The wrapper factories imported from [.engine]; each closes over the
    tracer provider it is given. *)
Inductive wrapper : Type :=
| _wrap_create_engine (tracer_provider : value)
| _wrap_connect (tracer_provider : value)
| _wrap_create_async_engine (tracer_provider : value).

(** What a module attribute holds: the library's own function, or a wrapt
    [FunctionWrapper] around a callable ([__wrapped__]). *)
Inductive callable : Type :=
| Original (qualname : string)
| FunctionWrapper (wrapped : callable) (w : wrapper).

Record Tracer : Type := MkTracer { provider : value }.

(** [_get_tracer(tracer_provider)] *)
Definition _get_tracer (tracer_provider : value) : Tracer :=
  MkTracer tracer_provider.

(** The four positional arguments [EngineTracer(...)] is called with. *)
Record EngineTracer : Type := MkEngineTracer {
  tracer : Tracer;
  engine : value;
  enable_commenter : value;
  commenter_options : value
}.

(** What [_instrument] returns. *)
Inductive retval : Type :=
| RNone
| RTracer (t : EngineTracer)
| RList (ts : list EngineTracer).

(** ** Process state and the effect monad *)

(** [attrs] maps the dotted path of an attribute to the callable bound
    there; [release] is [parse_version(sqlalchemy.__version__).release];
    [constructed] lists the EngineTracers constructed so far, oldest
    first. *)
Record world : Type := MkWorld {
  attrs : gmap string callable;
  release : list nat;
  constructed : list EngineTracer
}.

Inductive exn : Type :=
| AttributeError (module name : string).

(** A computation runs from a world to a world, and either raises or
    returns.  A raised exception keeps the effects made before it. *)
Definition M (A : Type) : Type := world → world * (exn + A).

Definition ret {A} (a : A) : M A := λ σ, (σ, inr a).

Definition raise {A} (e : exn) : M A := λ σ, (σ, inl e).

Definition bind {A B} (m : M A) (k : A → M B) : M B := λ σ,
  match m σ with
  | (σ', inr a) => k a σ'
  | (σ', inl e) => (σ', inl e)
  end.

Declare Scope py_scope.
Delimit Scope py_scope with py.
Notation "x <- m ;; k" := (bind m (λ x, k))
  (at level 100, m at next level, right associativity) : py_scope.
Notation "m ;; k" := (bind m (λ _, k))
  (at level 100, right associativity) : py_scope.

Fixpoint mapM {A B} (f : A → M B) (l : list A) : M (list B) :=
  match l with
  | [] => ret []
  | a :: l' => (b <- f a ;; bs <- mapM f l' ;; ret (b :: bs))%py
  end.

Definition qualname (owner name : string) : string :=
  owner +:+ "." +:+ name.

Definition setattr (path : string) (f : callable) (σ : world) : world :=
  MkWorld (<[path := f]> (attrs σ)) (release σ) (constructed σ).

(** [wrapt.wrap_function_wrapper(module, name, wrapper)]: resolves the
    attribute, raising when it does not exist, and rebinds it to a
    FunctionWrapper around the callable found there. *)
Definition _w (module name : string) (wr : wrapper) : M unit := λ σ,
  match attrs σ !! qualname module name with
  | Some f => (setattr (qualname module name) (FunctionWrapper f wr) σ, inr tt)
  | None => (σ, inl (AttributeError module name))
  end.

(** Modelled from the spec: [opentelemetry.instrumentation.utils.unwrap],
    the restore half of the host's wrapping mechanism (section 6), which is
    not in this module.  When the attribute holds a wrapper it is rebound
    to the wrapper's [__wrapped__]; otherwise (not a wrapper, or no such
    attribute) nothing happens, so the call is safe when no wrapper was
    installed (section 4.1). *)
Definition unwrap (obj attr : string) : M unit := λ σ,
  match attrs σ !! qualname obj attr with
  | Some (FunctionWrapper f _) => (setattr (qualname obj attr) f σ, inr tt)
  | _ => (σ, inr tt)
  end.

(** Modelled from the spec: the constructor of [.engine]'s EngineTracer,
    [EngineTracer(tracer, engine, enable_commenter, commenter_options)],
    which builds the object and subscribes it to the engine's events
    (section 4.2). *)
Definition new_EngineTracer
    (t : Tracer) (e ec co : value) : M EngineTracer := λ σ,
  let et := MkEngineTracer t e ec co in
  (MkWorld (attrs σ) (release σ) (constructed σ ++ [et]), inr et).

(** [sqlalchemy.__version__], parsed *)
Definition sqlalchemy_release : M (list nat) := λ σ, (σ, inr (release σ)).

(** Objects [_uninstrument] names directly. *)
Definition sqlalchemy : string := "sqlalchemy".
Definition sqlalchemy_engine : string := "sqlalchemy.engine".
Definition sqlalchemy_ext_asyncio : string := "sqlalchemy.ext.asyncio".
Definition Engine : string := "sqlalchemy.engine.base.Engine".

(** ** The instrumentor *)

Definition _instrument (kwargs : gmap string value) : M retval :=
  (let tracer_provider := kwargs_get kwargs "tracer_provider" in
   _w "sqlalchemy" "create_engine" (_wrap_create_engine tracer_provider) ;;
   _w "sqlalchemy.engine" "create_engine"
      (_wrap_create_engine tracer_provider) ;;
   _w "sqlalchemy.engine.base" "Engine.connect"
      (_wrap_connect tracer_provider) ;;
   r <- sqlalchemy_release ;;
   (if tuple_ge r [1; 4]
    then _w "sqlalchemy.ext.asyncio" "create_async_engine"
            (_wrap_create_async_engine tracer_provider)
    else ret tt) ;;
   if is_not_None (kwargs_get kwargs "engine") then
     t <- new_EngineTracer
            (_get_tracer tracer_provider)
            (kwargs_get kwargs "engine")
            (kwargs_get_default kwargs "enable_commenter" (VBool false))
            (kwargs_get_default kwargs "commenter_options" (VDict [])) ;;
     ret (RTracer t)
   else if is_not_None (kwargs_get kwargs "engines")
           && isinstance_Sequence (kwargs_get kwargs "engines") then
     ts <- mapM
             (λ engine,
                new_EngineTracer
                  (_get_tracer tracer_provider)
                  engine
                  (kwargs_get_default kwargs "enable_commenter" (VBool false))
                  (kwargs_get_default kwargs "commenter_options" (VDict [])))
             (iter (kwargs_get kwargs "engines")) ;;
     ret (RList ts)
   else
     ret RNone)%py.

(** The module objects named here, [sqlalchemy.ext.asyncio] of line 183
    among them, are taken to resolve, as they do in a process in which
    [_instrument] has run. *)
Definition _uninstrument : M unit :=
  (unwrap sqlalchemy "create_engine" ;;
   unwrap sqlalchemy_engine "create_engine" ;;
   unwrap Engine "connect" ;;
   r <- sqlalchemy_release ;;
   if tuple_ge r [1; 4]
   then unwrap sqlalchemy_ext_asyncio "create_async_engine"
   else ret tt)%py.

(** ** Auxiliary definitions for the statements *)

(** The dotted paths of the four entry points. *)
Abbreviation create_engine_path := "sqlalchemy.create_engine" (only parsing).
Abbreviation engine_create_engine_path :=
  "sqlalchemy.engine.create_engine" (only parsing).
Abbreviation connect_path :=
  "sqlalchemy.engine.base.Engine.connect" (only parsing).
Abbreviation create_async_engine_path :=
  "sqlalchemy.ext.asyncio.create_async_engine" (only parsing).

(** Lines 138-155 of the module: the installation of the wrappers. *)
Definition install_wrappers (tracer_provider : value) : M unit :=
  (_w "sqlalchemy" "create_engine" (_wrap_create_engine tracer_provider) ;;
   _w "sqlalchemy.engine" "create_engine"
      (_wrap_create_engine tracer_provider) ;;
   _w "sqlalchemy.engine.base" "Engine.connect"
      (_wrap_connect tracer_provider) ;;
   r <- sqlalchemy_release ;;
   if tuple_ge r [1; 4]
   then _w "sqlalchemy.ext.asyncio" "create_async_engine"
           (_wrap_create_async_engine tracer_provider)
   else ret tt)%py.

(** The EngineTracer that [_instrument kwargs] builds for engine [e]. *)
Definition tracer_for (kwargs : gmap string value) (e : value) : EngineTracer :=
  MkEngineTracer
    (_get_tracer (kwargs_get kwargs "tracer_provider"))
    e
    (kwargs_get_default kwargs "enable_commenter" (VBool false))
    (kwargs_get_default kwargs "commenter_options" (VDict [])).

(** Lines 156-176 of the module: the handling of [engine] and [engines]. *)
Definition instrument_options (kwargs : gmap string value) : M retval :=
  (if is_not_None (kwargs_get kwargs "engine") then
     t <- new_EngineTracer
            (_get_tracer (kwargs_get kwargs "tracer_provider"))
            (kwargs_get kwargs "engine")
            (kwargs_get_default kwargs "enable_commenter" (VBool false))
            (kwargs_get_default kwargs "commenter_options" (VDict [])) ;;
     ret (RTracer t)
   else if is_not_None (kwargs_get kwargs "engines")
           && isinstance_Sequence (kwargs_get kwargs "engines") then
     ts <- mapM
             (λ engine,
                new_EngineTracer
                  (_get_tracer (kwargs_get kwargs "tracer_provider"))
                  engine
                  (kwargs_get_default kwargs "enable_commenter" (VBool false))
                  (kwargs_get_default kwargs "commenter_options" (VDict [])))
             (iter (kwargs_get kwargs "engines")) ;;
     ret (RList ts)
   else
     ret RNone)%py.

(** The EngineTracers a return value holds. *)
Definition tracers_of (r : retval) : list EngineTracer :=
  match r with
  | RNone => []
  | RTracer t => [t]
  | RList ts => ts
  end.

(** The entry points [_instrument] wraps exist in [σ]: the three
    synchronous ones, and the asynchronous one from release (1, 4) on. *)
Definition installable (σ : world) : bool :=
  bool_decide (is_Some (attrs σ !! create_engine_path))
  && bool_decide (is_Some (attrs σ !! engine_create_engine_path))
  && bool_decide (is_Some (attrs σ !! connect_path))
  && (if tuple_ge (release σ) [1; 4]
      then bool_decide (is_Some (attrs σ !! create_async_engine_path))
      else true).

(** The three synchronous entry points exist in [σ]. *)
Definition sync_entry_points (σ : world) : bool :=
  bool_decide (is_Some (attrs σ !! create_engine_path))
  && bool_decide (is_Some (attrs σ !! engine_create_engine_path))
  && bool_decide (is_Some (attrs σ !! connect_path)).

(** Path [p] of [σ'] holds wrapper [w] around what [σ] has there. *)
Definition wraps (σ σ' : world) (p : string) (w : wrapper) : Prop :=
  ∃ f, attrs σ !! p = Some f ∧ attrs σ' !! p = Some (FunctionWrapper f w).

(** The sync wrappers of [_instrument] are in place in [σ']. *)
Definition sync_wrappers_installed (tp : value) (σ σ' : world) : Prop :=
  wraps σ σ' create_engine_path (_wrap_create_engine tp)
  ∧ wraps σ σ' engine_create_engine_path (_wrap_create_engine tp)
  ∧ wraps σ σ' connect_path (_wrap_connect tp).

(** A freshly imported library: every entry point its release has, bound
    to the library's own function. *)
Definition pristine (r : list nat) : world :=
  MkWorld
    (let sync : gmap string callable :=
       <[create_engine_path := Original "create_engine"]>
       (<[engine_create_engine_path := Original "create_engine"]>
       (<[connect_path := Original "Engine.connect"]> ∅)) in
     if tuple_ge r [1; 4]
     then <[create_async_engine_path := Original "create_async_engine"]> sync
     else sync)
    r [].

(** The value the option handling returns, as a function of the options. *)
Definition options_result (kwargs : gmap string value) : retval :=
  if is_not_None (kwargs_get kwargs "engine") then
    RTracer (tracer_for kwargs (kwargs_get kwargs "engine"))
  else if is_not_None (kwargs_get kwargs "engines")
          && isinstance_Sequence (kwargs_get kwargs "engines") then
    RList (tracer_for kwargs <$> iter (kwargs_get kwargs "engines"))
  else RNone.

(** The attribute table after the three synchronous wraps. *)
Definition sync_wrapped (tp : value) (f1 f2 f3 : callable)
    (m : gmap string callable) : gmap string callable :=
  <[connect_path := FunctionWrapper f3 (_wrap_connect tp)]>
  (<[engine_create_engine_path := FunctionWrapper f2 (_wrap_create_engine tp)]>
  (<[create_engine_path := FunctionWrapper f1 (_wrap_create_engine tp)]> m)).

(** All the wrappers [_instrument] installs for the release of [σ] are in
    place in [σ']. *)
Definition wrappers_installed (tp : value) (σ σ' : world) : Prop :=
  sync_wrappers_installed tp σ σ'
  ∧ (tuple_ge (release σ) [1; 4] = true →
     wraps σ σ' create_async_engine_path (_wrap_create_async_engine tp)).

(** ** Sample worlds and options *)

Definition engine_a : value := VObject 1.
Definition engine_b : value := VObject 2.
Definition provider_p : value := VObject 10.

(** SQLAlchemy 2.0.0 and 1.3.24, freshly imported. *)
Definition world_2_0 : world := pristine [2; 0; 0].
Definition world_1_3 : world := pristine [1; 3; 24].

(** ** The EngineTracer's hooks *)

(** Python truth of a value, as [if x:] tests it. *)
Definition truthy (v : value) : bool :=
  match v with
  | VNone => false
  | VBool b => b
  | VInt n => negb (n =? 0)%Z
  | VStr EmptyString => false
  | VList [] | VTuple [] | VGenerator [] | VSet [] => false
  | VDict [] => false
  | _ => true
  end.

Inductive status : Type :=
| StatusOk
| StatusError (err : string).

(** The span bookkeeping of one EngineTracer: the spans opened so far (by
    identity, oldest first), the active span set keyed by the execution
    context, and the spans closed so far with the status they were closed
    with. *)
Record spans : Type := MkSpans {
  next_span : nat;
  opened : list nat;
  active : gmap nat nat;
  closed : list (nat * status)
}.

Definition no_spans : spans := MkSpans 0 [] ∅ [].

(** What the commenter reads from the connection and the trace context. *)
Record comment_context : Type := MkCommentContext {
  db_driver : string;
  db_framework : string;
  traceparent : string
}.

Fixpoint assoc (key : string) (kvs : list (string * value)) : option value :=
  match kvs with
  | [] => None
  | (k, v) :: kvs' => if String.eqb k key then Some v else assoc key kvs'
  end.

(** Modelled from the spec: the commenter sub-options of section 6, which
    live in [.engine], not in this module.  Each of [db_driver],
    [db_framework] and [opentelemetry_values] is a boolean toggle that
    defaults to true. *)
Definition option_enabled (commenter_options : value) (key : string) : bool :=
  match commenter_options with
  | VDict kvs =>
      match assoc key kvs with
      | Some v => truthy v
      | None => true
      end
  | _ => true
  end.

(** Modelled from the spec: the fields of the comment, keys in sorted
    order, as section 6 lists them. *)
Definition comment_fields (commenter_options : value) (cc : comment_context)
    : list (string * string) :=
  (if option_enabled commenter_options "db_driver"
   then [("db_driver", db_driver cc)] else [])
  ++ (if option_enabled commenter_options "db_framework"
      then [("db_framework", db_framework cc)] else [])
  ++ (if option_enabled commenter_options "opentelemetry_values"
      then [("traceparent", traceparent cc)] else []).

Fixpoint join_fields (fields : list (string * string)) : string :=
  match fields with
  | [] => EmptyString
  | [(k, v)] => k +:+ "='" +:+ v +:+ "'"
  | (k, v) :: fields' => k +:+ "='" +:+ v +:+ "'," +:+ join_fields fields'
  end.

(** Modelled from the spec: the comment format of section 6; the formatter
    lives in [.engine]. *)
Definition add_comment (statement : string) (fields : list (string * string))
    : string :=
  statement +:+ " /*" +:+ join_fields fields +:+ "*/;".

(** Modelled from the spec: the before-execute hook of section 4.2, which
    lives in [.engine].  It opens a new span for the execution context and
    hands the statement text and the bound parameters on to the driver; the
    text gets the trailing comment when the commenter is enabled. *)
Definition before_cursor_execute (t : EngineTracer) (cc : comment_context)
    (ctx : nat) (statement : string) (parameters : value) (s : spans)
    : spans * (string * value) :=
  let span := next_span s in
  let s' := MkSpans (S span) (opened s ++ [span])
              (<[ctx := span]> (active s)) (closed s) in
  let statement' :=
    if truthy (enable_commenter t)
    then add_comment statement (comment_fields (commenter_options t) cc)
    else statement in
  (s', (statement', parameters)).

(** Modelled from the spec: the closing of a span, shared by the two hooks
    of [.engine] below.  The span of the execution context, when it has
    one, is closed with the given status and leaves the active set. *)
Definition close_span (ctx : nat) (st : status) (s : spans) : spans :=
  match active s !! ctx with
  | Some span =>
      MkSpans (next_span s) (opened s) (delete ctx (active s))
        (closed s ++ [(span, st)])
  | None => s
  end.

(** Modelled from the spec: the after-execute hook of section 4.2 closes
    the span opened for that execution with success status. *)
Definition after_cursor_execute (ctx : nat) (s : spans) : spans :=
  close_span ctx StatusOk s.

(** Modelled from the spec: the error hook of section 4.2 closes the span
    with error status and records the error. *)
Definition handle_error (ctx : nat) (err : string) (s : spans) : spans :=
  close_span ctx (StatusError err) s.

(** The notifications the engine sends to its listeners. *)
Inductive event : Type :=
| BeforeExecute (ctx : nat) (cc : comment_context)
    (statement : string) (parameters : value)
| AfterExecute (ctx : nat)
| HandleError (ctx : nat) (err : string).

(** Modelled from the spec: the engine's dispatch of its notifications to
    the hooks of [.engine] (section 5).  Executions on different
    connections interleave at the grain of a hook call: the hooks are
    synchronous and each runs to its end.  The second component lists what
    was handed to the driver, in order. *)
Fixpoint run_hooks (t : EngineTracer) (evs : list event) (s : spans)
    : spans * list (string * value) :=
  match evs with
  | [] => (s, [])
  | BeforeExecute ctx cc statement parameters :: evs' =>
      let '(s1, sent) := before_cursor_execute t cc ctx statement parameters s in
      let '(s2, rest) := run_hooks t evs' s1 in
      (s2, sent :: rest)
  | AfterExecute ctx :: evs' => run_hooks t evs' (after_cursor_execute ctx s)
  | HandleError ctx err :: evs' => run_hooks t evs' (handle_error ctx err s)
  end.

(** The statuses the executions ended with, in order. *)
Fixpoint outcomes (evs : list event) : list status :=
  match evs with
  | [] => []
  | BeforeExecute _ _ _ _ :: evs' => outcomes evs'
  | AfterExecute _ :: evs' => StatusOk :: outcomes evs'
  | HandleError _ err :: evs' => StatusError err :: outcomes evs'
  end.

(** The number of statement executions begun. *)
Fixpoint executions (evs : list event) : nat :=
  match evs with
  | [] => 0
  | BeforeExecute _ _ _ _ :: evs' => S (executions evs')
  | _ :: evs' => executions evs'
  end.

(** Modelled from the spec: the host's ordering guarantee of section 5 for
    a sequence of notifications, given the execution contexts in flight
    before it: a before-execute comes for a context that is not in flight,
    an after-execute or an error for one that is, and at the end no
    execution is left in flight. *)
Fixpoint host_ok (inflight : gset nat) (evs : list event) : bool :=
  match evs with
  | [] => bool_decide (inflight = ∅)
  | BeforeExecute ctx _ _ _ :: evs' =>
      bool_decide (ctx ∉ inflight) && host_ok ({[ctx]} ∪ inflight) evs'
  | AfterExecute ctx :: evs' | HandleError ctx _ :: evs' =>
      bool_decide (ctx ∈ inflight) && host_ok (inflight ∖ {[ctx]}) evs'
  end.

(** The bookkeeping is consistent with the contexts in flight. *)
Definition spans_inv (s : spans) (inflight : gset nat) : Prop :=
  dom (active s) = inflight
  ∧ opened s ≡ₚ (closed s).*1 ++ (map_to_list (active s)).*2
  ∧ NoDup (opened s)
  ∧ Forall (λ n, n < next_span s) (opened s).

(** Sample statements. *)
Definition sample_context : comment_context :=
  MkCommentContext "psycopg2" "sqlalchemy:2.0.0"
    "00-03afa25236b8cd948fa853d67038ac79-405ff022e8247c46-01".

Definition tracer_plain : EngineTracer :=
  MkEngineTracer (MkTracer VNone) engine_a (VBool false) (VDict []).

Definition tracer_commenting : EngineTracer :=
  MkEngineTracer (MkTracer VNone) engine_a (VBool true) (VDict []).

(** Two connections of one engine, their executions interleaved; the
    second one raises. *)
Definition interleaved : list event :=
  [BeforeExecute 1 sample_context "SELECT 1" (VTuple []);
   BeforeExecute 2 sample_context "SELECT x FROM t WHERE y = ?"
     (VTuple [VInt 7]);
   HandleError 2 "OperationalError";
   AfterExecute 1;
   BeforeExecute 1 sample_context "SELECT 2" (VTuple []);
   AfterExecute 1].

(** The execution context a notification is for. *)
Definition event_ctx (ev : event) : nat :=
  match ev with
  | BeforeExecute ctx _ _ _ | AfterExecute ctx | HandleError ctx _ => ctx
  end.

(** The status a notification ends its execution with, when it ends one. *)
Definition close_status (ev : event) : option status :=
  match ev with
  | BeforeExecute _ _ _ _ => None
  | AfterExecute _ => Some StatusOk
  | HandleError _ err => Some (StatusError err)
  end.








(** ** Auxiliary definitions for the further properties *)

(** What an unwrap leaves where it finds [o]: a wrapper gives way to what
    it wrapped, anything else stays. *)
Definition strip (o : option callable) : option callable :=
  match o with
  | Some (FunctionWrapper f _) => Some f
  | _ => o
  end.

Definition is_wrapper (o : option callable) : bool :=
  match o with
  | Some (FunctionWrapper _ _) => true
  | _ => false
  end.

(** The paths [_instrument] and [_uninstrument] act on under release [r]. *)
Definition entry_point (r : list nat) (p : string) : bool :=
  bool_decide (p = create_engine_path)
  || bool_decide (p = engine_create_engine_path)
  || bool_decide (p = connect_path)
  || (tuple_ge r [1; 4] && bool_decide (p = create_async_engine_path)).

(** The wrapper [_instrument] puts at an entry point. *)
Definition wrapper_at (tp : value) (p : string) : wrapper :=
  if bool_decide (p = connect_path) then _wrap_connect tp
  else if bool_decide (p = create_async_engine_path)
       then _wrap_create_async_engine tp
       else _wrap_create_engine tp.

(** A 1.4 library whose [sqlalchemy.ext.asyncio.create_async_engine]
    cannot be resolved. *)
Definition world_1_4_no_async : world := MkWorld (attrs world_1_3) [1; 4; 0] [].

(** The exception [_instrument] raises in [σ], if any: the one for the
    first entry point, in the order of the wraps, that does not exist. *)
Definition first_missing (σ : world) : option exn :=
  if negb (bool_decide (is_Some (attrs σ !! create_engine_path)))
  then Some (AttributeError "sqlalchemy" "create_engine")
  else if negb (bool_decide (is_Some (attrs σ !! engine_create_engine_path)))
  then Some (AttributeError "sqlalchemy.engine" "create_engine")
  else if negb (bool_decide (is_Some (attrs σ !! connect_path)))
  then Some (AttributeError "sqlalchemy.engine.base" "Engine.connect")
  else if tuple_ge (release σ) [1; 4]
          && negb (bool_decide
                     (is_Some (attrs σ !! create_async_engine_path)))
  then Some (AttributeError "sqlalchemy.ext.asyncio" "create_async_engine")
  else None.

(** What a wrap leaves where it finds [o]. *)
Definition wrap_with (w : wrapper) (o : option callable) : option callable :=
  (λ f, FunctionWrapper f w) <$> o.

(** The tracer provider a wrapper closes over. *)
Definition wrapper_provider (w : wrapper) : value :=
  match w with
  | _wrap_create_engine tp | _wrap_connect tp
  | _wrap_create_async_engine tp => tp
  end.

(** * Properties *)

(** ** Release comparison *)

Example tuple_ge_1_3_24 : tuple_ge [1; 3; 24] [1; 4] = false.
Proof. reflexivity. Qed.

Example tuple_ge_1_4 : tuple_ge [1; 4] [1; 4] = true.
Proof. reflexivity. Qed.

Example tuple_ge_1_4_0 : tuple_ge [1; 4; 0] [1; 4] = true.
Proof. reflexivity. Qed.

Example tuple_ge_1_10 : tuple_ge [1; 10; 2] [1; 4] = true.
Proof. reflexivity. Qed.

Example tuple_ge_1 : tuple_ge [1] [1; 4] = false.
Proof. reflexivity. Qed.

Example tuple_ge_2 : tuple_ge [2] [1; 4] = true.
Proof. reflexivity. Qed.

(** Against (1, 4) the comparison reads the major and minor numbers. *)
Lemma tuple_ge_1_4_spec (r : list nat) :
  tuple_ge r [1; 4] = true ↔
  ∃ major rest, r = major :: rest ∧
    (1 < major ∨ (major = 1 ∧ ∃ minor rest', rest = minor :: rest' ∧ 4 ≤ minor)).
Proof.
  split.
  - destruct r as [|major rest]; [done|]. cbn [tuple_ge].
    destruct (Nat.eqb_spec major 1) as [->|Hne].
    + destruct rest as [|minor rest']; [done|]. cbn [tuple_ge].
      destruct (Nat.eqb_spec minor 4) as [->|Hne'].
      * intros _. exists 1, (4 :: rest'). split; [done|]. right.
        split; [done|]. exists 4, rest'. split; [done | lia].
      * intros H%Nat.leb_le. exists 1, (minor :: rest'). split; [done|].
        right. split; [done|]. exists minor, rest'. split; [done | lia].
    + intros H%Nat.leb_le. exists major, rest. split; [done|]. left. lia.
  - intros (major & rest & -> & [Hlt | (-> & minor & rest' & -> & Hle)]).
    + cbn [tuple_ge]. destruct (Nat.eqb_spec major 1); [lia|]. apply Nat.leb_le. lia.
    + cbn [tuple_ge]. destruct (Nat.eqb_spec minor 4); [by destruct rest'|].
      apply Nat.leb_le. lia.
Qed.

(** ** Running the stages *)

Lemma world_eta (σ : world) :
  MkWorld (attrs σ) (release σ) (constructed σ) = σ.
Proof. by destruct σ. Qed.

Lemma _w_found (module name : string) (w : wrapper) (σ : world) (f : callable) :
  attrs σ !! qualname module name = Some f →
  _w module name w σ
  = (setattr (qualname module name) (FunctionWrapper f w) σ, inr tt).
Proof. intros H. unfold _w. by rewrite H. Qed.

Lemma _w_missing (module name : string) (w : wrapper) (σ : world) :
  attrs σ !! qualname module name = None →
  _w module name w σ = (σ, inl (AttributeError module name)).
Proof. intros H. unfold _w. by rewrite H. Qed.

Lemma unwrap_wrapper (obj attr : string) (σ : world) (f : callable) (w : wrapper) :
  attrs σ !! qualname obj attr = Some (FunctionWrapper f w) →
  unwrap obj attr σ = (setattr (qualname obj attr) f σ, inr tt).
Proof. intros H. unfold unwrap. by rewrite H. Qed.

(** [_instrument] is the installation followed by the option handling. *)
Lemma _instrument_split (kwargs : gmap string value) (σ : world) :
  _instrument kwargs σ
  = bind (install_wrappers (kwargs_get kwargs "tracer_provider"))
         (λ _, instrument_options kwargs) σ.
Proof.
  unfold _instrument, install_wrappers, instrument_options, bind.
  destruct (_w "sqlalchemy" _ _ σ) as [σ1 [e|[]]]; [done|].
  destruct (_w "sqlalchemy.engine" _ _ σ1) as [σ2 [e|[]]]; [done|].
  destruct (_w "sqlalchemy.engine.base" _ _ σ2) as [σ3 [e|[]]]; [done|].
  unfold sqlalchemy_release.
  destruct (tuple_ge (release σ3) [1; 4]); [|done].
  by destruct (_w "sqlalchemy.ext.asyncio" _ _ σ3) as [σ4 [e|[]]].
Qed.

Lemma mapM_new_EngineTracer (t : Tracer) (ec co : value) (es : list value) (σ : world) :
  mapM (λ e, new_EngineTracer t e ec co) es σ
  = (MkWorld (attrs σ) (release σ)
       (constructed σ ++ ((λ e, MkEngineTracer t e ec co) <$> es)),
     inr ((λ e, MkEngineTracer t e ec co) <$> es)).
Proof.
  revert σ. induction es as [|e es IH]; intros σ.
  - simpl. unfold ret. by rewrite app_nil_r, world_eta.
  - cbn [mapM]. unfold bind at 1. unfold new_EngineTracer at 1.
    unfold bind at 1. rewrite IH. cbn. unfold ret.
    by rewrite <- app_assoc.
Qed.

(** The option handling never raises, leaves the attributes alone, and
    constructs exactly the EngineTracers it returns. *)
Lemma instrument_options_run (kwargs : gmap string value) (σ : world) :
  instrument_options kwargs σ
  = (MkWorld (attrs σ) (release σ)
       (constructed σ ++ tracers_of (options_result kwargs)),
     inr (options_result kwargs)).
Proof.
  unfold instrument_options, options_result.
  destruct (is_not_None (kwargs_get kwargs "engine")).
  - reflexivity.
  - destruct (is_not_None (kwargs_get kwargs "engines")
              && isinstance_Sequence (kwargs_get kwargs "engines")).
    + unfold bind. rewrite mapM_new_EngineTracer. reflexivity.
    + unfold ret. cbn. by rewrite app_nil_r, world_eta.
Qed.

(** The installation constructs no EngineTracer and keeps the release,
    whether it returns or raises. *)
Lemma install_wrappers_frame (tp : value) (σ σ' : world) (out : exn + unit) :
  install_wrappers tp σ = (σ', out) →
  release σ' = release σ ∧ constructed σ' = constructed σ.
Proof.
  unfold install_wrappers, bind, sqlalchemy_release, _w, ret.
  intros H. repeat case_match; by simplify_eq/=.
Qed.

Ltac path_ne := by (vm_compute; intros [=]).

Lemma sync_wrapped_lookup (tp : value) (f1 f2 f3 : callable)
    (m : gmap string callable) :
  sync_wrapped tp f1 f2 f3 m !! create_engine_path
    = Some (FunctionWrapper f1 (_wrap_create_engine tp))
  ∧ sync_wrapped tp f1 f2 f3 m !! engine_create_engine_path
    = Some (FunctionWrapper f2 (_wrap_create_engine tp))
  ∧ sync_wrapped tp f1 f2 f3 m !! connect_path
    = Some (FunctionWrapper f3 (_wrap_connect tp))
  ∧ sync_wrapped tp f1 f2 f3 m !! create_async_engine_path
    = m !! create_async_engine_path.
Proof.
  unfold sync_wrapped. repeat split.
  - rewrite lookup_insert_ne by path_ne. rewrite lookup_insert_ne by path_ne.
    apply lookup_insert_eq.
  - rewrite lookup_insert_ne by path_ne. apply lookup_insert_eq.
  - apply lookup_insert_eq.
  - by repeat rewrite lookup_insert_ne by path_ne.
Qed.

(** The three synchronous wraps, run from a world that has the entry
    points. *)
Lemma install_wrappers_run (tp : value) (σ : world) (f1 f2 f3 : callable) :
  attrs σ !! create_engine_path = Some f1 →
  attrs σ !! engine_create_engine_path = Some f2 →
  attrs σ !! connect_path = Some f3 →
  install_wrappers tp σ
  = let σ3 := MkWorld (sync_wrapped tp f1 f2 f3 (attrs σ))
                (release σ) (constructed σ) in
    if tuple_ge (release σ) [1; 4]
    then _w "sqlalchemy.ext.asyncio" "create_async_engine"
            (_wrap_create_async_engine tp) σ3
    else (σ3, inr tt).
Proof.
  intros H1 H2 H3. unfold install_wrappers.
  unfold bind at 1. rewrite (_w_found _ _ _ _ f1) by exact H1.
  unfold bind at 1. rewrite (_w_found _ _ _ _ f2); last first.
  { cbn [setattr attrs]. rewrite lookup_insert_ne by path_ne. exact H2. }
  unfold bind at 1. rewrite (_w_found _ _ _ _ f3); last first.
  { cbn [setattr attrs]. do 2 rewrite lookup_insert_ne by path_ne. exact H3. }
  unfold bind, sqlalchemy_release. cbn [setattr attrs release constructed].
  change (qualname "sqlalchemy" "create_engine") with create_engine_path.
  change (qualname "sqlalchemy.engine" "create_engine")
    with engine_create_engine_path.
  change (qualname "sqlalchemy.engine.base" "Engine.connect") with connect_path.
  fold (sync_wrapped tp f1 f2 f3 (attrs σ)).
  destruct (tuple_ge (release σ) [1; 4]); [|done].
  by destruct (_w _ _ _ _) as [? [?|[]]].
Qed.

Lemma sync_entry_points_lookup (σ : world) :
  sync_entry_points σ = true →
  ∃ f1 f2 f3,
    attrs σ !! create_engine_path = Some f1
    ∧ attrs σ !! engine_create_engine_path = Some f2
    ∧ attrs σ !! connect_path = Some f3.
Proof.
  unfold sync_entry_points. intros H.
  apply andb_prop in H as [H H3]. apply andb_prop in H as [H1 H2].
  apply bool_decide_eq_true in H1 as [f1 H1].
  apply bool_decide_eq_true in H2 as [f2 H2].
  apply bool_decide_eq_true in H3 as [f3 H3].
  by exists f1, f2, f3.
Qed.

Lemma installable_sync (σ : world) :
  installable σ = true → sync_entry_points σ = true.
Proof.
  unfold installable, sync_entry_points. intros H.
  by apply andb_prop in H as [H _].
Qed.

Lemma installable_async (σ : world) :
  installable σ = true →
  tuple_ge (release σ) [1; 4] = true →
  is_Some (attrs σ !! create_async_engine_path).
Proof.
  unfold installable. intros H Hge.
  apply andb_prop in H as [_ H]. rewrite Hge in H.
  by apply bool_decide_eq_true in H.
Qed.

Lemma FunctionWrapper_neq (f : callable) (w : wrapper) :
  FunctionWrapper f w ≠ f.
Proof.
  induction f as [|f IH w']; [done|].
  intros [= H Hw]. subst w'. by apply IH.
Qed.

(** The installation, from a world that has the synchronous entry points:
    the three wrappers are in place whatever the outcome; below (1, 4) the
    asynchronous entry point is not looked at; from (1, 4) on it is wrapped
    when it exists, and its absence raises. *)
Lemma install_wrappers_sync (tp : value) (σ : world) :
  sync_entry_points σ = true →
  ∃ σ1 out,
    install_wrappers tp σ = (σ1, out)
    ∧ sync_wrappers_installed tp σ σ1
    ∧ (tuple_ge (release σ) [1; 4] = false →
       out = inr tt
       ∧ attrs σ1 !! create_async_engine_path
         = attrs σ !! create_async_engine_path)
    ∧ (tuple_ge (release σ) [1; 4] = true →
       match attrs σ !! create_async_engine_path with
       | Some f =>
           out = inr tt
           ∧ attrs σ1 !! create_async_engine_path
             = Some (FunctionWrapper f (_wrap_create_async_engine tp))
       | None =>
           out = inl (AttributeError "sqlalchemy.ext.asyncio"
                        "create_async_engine")
       end).
Proof.
  intros (f1 & f2 & f3 & H1 & H2 & H3)%sync_entry_points_lookup.
  rewrite (install_wrappers_run tp σ f1 f2 f3 H1 H2 H3). cbn zeta.
  destruct (sync_wrapped_lookup tp f1 f2 f3 (attrs σ)) as (L1 & L2 & L3 & L4).
  destruct (tuple_ge (release σ) [1; 4]) eqn:Hge.
  - destruct (attrs σ !! create_async_engine_path) as [f4|] eqn:H4.
    + rewrite (_w_found _ _ _ _ f4) by exact L4.
      eexists _, _. split; [reflexivity|]. cbn [setattr attrs].
      split; [|split; [done|]].
      * unfold sync_wrappers_installed, wraps. cbn [setattr attrs].
        repeat split; eexists; (split; [eassumption|]);
          by rewrite lookup_insert_ne by path_ne.
      * intros _. split; [done|]. apply lookup_insert_eq.
    + rewrite _w_missing by exact L4.
      eexists _, _. split; [reflexivity|]. cbn [attrs].
      split; [|split; [done|]].
      * unfold sync_wrappers_installed, wraps. cbn [attrs].
        by repeat split; eexists.
      * done.
  - eexists _, _. split; [reflexivity|]. cbn [attrs].
    split; [|split; [|done]].
    + unfold sync_wrappers_installed, wraps. cbn [attrs].
      by repeat split; eexists.
    + intros _. split; [done|]. exact L4.
Qed.

Lemma install_wrappers_ok (tp : value) (σ : world) :
  installable σ = true →
  ∃ σ1,
    install_wrappers tp σ = (σ1, inr tt)
    ∧ wrappers_installed tp σ σ1
    ∧ release σ1 = release σ
    ∧ constructed σ1 = constructed σ.
Proof.
  intros Hin.
  destruct (install_wrappers_sync tp σ (installable_sync σ Hin))
    as (σ1 & out & Hrun & Hsync & Hlt & Hge).
  destruct (install_wrappers_frame tp σ σ1 out Hrun) as [Hr Hc].
  exists σ1. unfold wrappers_installed.
  destruct (tuple_ge (release σ) [1; 4]) eqn:E.
  - destruct (installable_async σ Hin E) as [f4 H4].
    specialize (Hge eq_refl). rewrite H4 in Hge. destruct Hge as [-> Hw].
    split; [done|]. split; [|done]. split; [done|]. by exists f4.
  - destruct (Hlt eq_refl) as [-> _].
    split; [done|]. split; [|done]. by split.
Qed.

(** [_instrument] from a world that has the entry points: it returns, and
    what it returns and constructs is decided by the options alone. *)
Lemma _instrument_run (kwargs : gmap string value) (σ : world) :
  installable σ = true →
  ∃ σ',
    _instrument kwargs σ = (σ', inr (options_result kwargs))
    ∧ wrappers_installed (kwargs_get kwargs "tracer_provider") σ σ'
    ∧ release σ' = release σ
    ∧ constructed σ' = constructed σ ++ tracers_of (options_result kwargs).
Proof.
  intros Hin.
  destruct (install_wrappers_ok (kwargs_get kwargs "tracer_provider") σ Hin)
    as (σ1 & Hrun & Hw & Hr & Hc).
  eexists. split.
  - rewrite _instrument_split. unfold bind. rewrite Hrun.
    rewrite instrument_options_run. reflexivity.
  - cbn [release constructed]. rewrite Hc. split; [|done].
    destruct Hw as [Hs Ha]. split; [exact Hs | exact Ha].
Qed.

Example world_2_0_installable : installable world_2_0 = true.
Proof. vm_compute. reflexivity. Qed.

Example world_1_3_installable : installable world_1_3 = true.
Proof. vm_compute. reflexivity. Qed.

Example instrument_engine_a :
  (_instrument {[ "engine" := engine_a ]} world_2_0).2
  = inr (RTracer (MkEngineTracer (MkTracer VNone) engine_a
                    (VBool false) (VDict []))).
Proof. vm_compute. reflexivity. Qed.

Example instrument_engines_a_b :
  (_instrument {[ "engines" := VList [engine_a; engine_b] ]} world_1_3).2
  = inr (RList [MkEngineTracer (MkTracer VNone) engine_a
                  (VBool false) (VDict []);
                MkEngineTracer (MkTracer VNone) engine_b
                  (VBool false) (VDict [])]).
Proof. vm_compute. reflexivity. Qed.

Example instrument_no_options :
  (_instrument ∅ world_2_0).2 = inr RNone.
Proof. vm_compute. reflexivity. Qed.

(** ** What [_instrument] returns *)

Lemma tracers_of_engine (kwargs : gmap string value) (ts : list EngineTracer) :
  ts = tracer_for kwargs <$> iter (kwargs_get kwargs "engines") →
  engine <$> ts = iter (kwargs_get kwargs "engines").
Proof.
  intros ->. rewrite <- list_fmap_compose.
  induction (iter (kwargs_get kwargs "engines")) as [|e es IH]; [done|].
  cbn. by rewrite IH.
Qed.

(** C1: with [engine] supplied, [_instrument] returns one EngineTracer bound
    to that engine; with [engines] supplied as a sequence (and no [engine],
    which would take precedence) it returns a list of EngineTracers, one per
    input engine and in the input order; with neither it returns None.  In
    all three cases the call returns normally and the wrappers are
    installed. *)
Theorem instrument_returns (kwargs : gmap string value) (σ : world) :
  installable σ = true →
  ∃ σ' r,
    _instrument kwargs σ = (σ', inr r)
    ∧ wrappers_installed (kwargs_get kwargs "tracer_provider") σ σ'
    ∧ constructed σ' = constructed σ ++ tracers_of r
    ∧ (kwargs_get kwargs "engine" ≠ VNone →
       ∃ t, r = RTracer t
            ∧ engine t = kwargs_get kwargs "engine"
            ∧ t = tracer_for kwargs (kwargs_get kwargs "engine"))
    ∧ (kwargs_get kwargs "engine" = VNone →
       isinstance_Sequence (kwargs_get kwargs "engines") = true →
       ∃ ts, r = RList ts
             ∧ length ts = length (iter (kwargs_get kwargs "engines"))
             ∧ engine <$> ts = iter (kwargs_get kwargs "engines")
             ∧ ts = tracer_for kwargs <$> iter (kwargs_get kwargs "engines"))
    ∧ (kwargs_get kwargs "engine" = VNone →
       kwargs_get kwargs "engines" = VNone →
       r = RNone).
Proof.
  intros Hin.
  destruct (_instrument_run kwargs σ Hin) as (σ' & Hrun & Hw & _ & Hc).
  exists σ', (options_result kwargs).
  split; [done|]. split; [done|]. split; [done|].
  unfold options_result. repeat split.
  - intros He. destruct (kwargs_get kwargs "engine") eqn:E; try done;
      by eexists.
  - intros -> Hseq. cbn [is_not_None]. rewrite Hseq.
    assert (is_not_None (kwargs_get kwargs "engines") = true) as ->
      by (by destruct (kwargs_get kwargs "engines")).
    cbn [andb]. eexists. split; [reflexivity|].
    rewrite length_fmap. split; [done|]. split; [|done].
    by apply tracers_of_engine.
  - by intros -> ->.
Qed.

Lemma instrument_returns_witness :
  ∃ σ' r,
    _instrument {[ "engines" := VList [engine_a; engine_b] ]} world_2_0
    = (σ', inr r)
    ∧ tracers_of r
      = [MkEngineTracer (MkTracer VNone) engine_a (VBool false) (VDict []);
         MkEngineTracer (MkTracer VNone) engine_b (VBool false) (VDict [])].
Proof.
  destruct (instrument_returns
              {[ "engines" := VList [engine_a; engine_b] ]} world_2_0)
    as (σ' & r & Hrun & _ & _ & _ & Hlist & _).
  - vm_compute. reflexivity.
  - exists σ', r. split; [exact Hrun|].
    destruct Hlist as (ts & -> & _ & _ & ->).
    + vm_compute. reflexivity.
    + vm_compute. reflexivity.
    + vm_compute. reflexivity.
Defined.

(** C8: with both [engine] and [engines] supplied, only the single engine
    is instrumented: the result is its EngineTracer, and it is the only
    EngineTracer constructed, whatever [engines] holds. *)
Theorem engine_takes_precedence
    (kwargs : gmap string value) (σ : world) (e es : value) :
  installable σ = true →
  kwargs !! "engine" = Some e →
  e ≠ VNone →
  kwargs !! "engines" = Some es →
  ∃ σ',
    _instrument kwargs σ = (σ', inr (RTracer (tracer_for kwargs e)))
    ∧ engine (tracer_for kwargs e) = e
    ∧ constructed σ' = constructed σ ++ [tracer_for kwargs e].
Proof.
  intros Hin He Hne _.
  destruct (_instrument_run kwargs σ Hin) as (σ' & Hrun & _ & _ & Hc).
  assert (options_result kwargs = RTracer (tracer_for kwargs e)) as Hres.
  { assert (kwargs_get kwargs "engine" = e) as Hget
      by (unfold kwargs_get; by rewrite He).
    unfold options_result. rewrite Hget. by destruct e. }
  rewrite Hres in Hrun, Hc. by exists σ'.
Qed.

Lemma engine_takes_precedence_witness :
  ∃ σ',
    _instrument
      (<[ "engine" := engine_a ]> {[ "engines" := VList [engine_b; engine_b] ]})
      world_2_0
    = (σ', inr (RTracer (MkEngineTracer (MkTracer VNone) engine_a
                           (VBool false) (VDict []))))
    ∧ constructed σ'
      = [MkEngineTracer (MkTracer VNone) engine_a (VBool false) (VDict [])].
Proof.
  destruct (engine_takes_precedence
              (<[ "engine" := engine_a ]>
                 {[ "engines" := VList [engine_b; engine_b] ]})
              world_2_0 engine_a (VList [engine_b; engine_b]))
    as (σ' & Hrun & _ & Hc).
  - vm_compute. reflexivity.
  - vm_compute. reflexivity.
  - discriminate.
  - vm_compute. reflexivity.
  - exists σ'. split; [exact Hrun | exact Hc].
Defined.

(** C9: with [engines] supplied (and no [engine]) but not a Sequence
    instance, [_instrument] returns None without raising and constructs no
    EngineTracer, while the wrappers are installed. *)
Theorem non_sequence_engines_ignored
    (kwargs : gmap string value) (σ : world) (es : value) :
  installable σ = true →
  kwargs_get kwargs "engine" = VNone →
  kwargs !! "engines" = Some es →
  es ≠ VNone →
  isinstance_Sequence es = false →
  ∃ σ',
    _instrument kwargs σ = (σ', inr RNone)
    ∧ constructed σ' = constructed σ
    ∧ wrappers_installed (kwargs_get kwargs "tracer_provider") σ σ'.
Proof.
  intros Hin He Hes _ Hseq.
  destruct (_instrument_run kwargs σ Hin) as (σ' & Hrun & Hw & _ & Hc).
  assert (options_result kwargs = RNone) as Hres.
  { assert (kwargs_get kwargs "engines" = es) as Hget
      by (unfold kwargs_get; by rewrite Hes).
    unfold options_result. rewrite He, Hget, Hseq. cbn [is_not_None].
    by rewrite andb_false_r. }
  rewrite Hres in Hrun, Hc. cbn in Hc. rewrite app_nil_r in Hc.
  by exists σ'.
Qed.

Lemma non_sequence_engines_ignored_witness :
  ∃ σ',
    _instrument {[ "engines" := VGenerator [engine_a; engine_b] ]} world_2_0
    = (σ', inr RNone)
    ∧ constructed σ' = [].
Proof.
  destruct (non_sequence_engines_ignored
              {[ "engines" := VGenerator [engine_a; engine_b] ]}
              world_2_0 (VGenerator [engine_a; engine_b]))
    as (σ' & Hrun & Hc & _).
  - vm_compute. reflexivity.
  - vm_compute. reflexivity.
  - vm_compute. reflexivity.
  - discriminate.
  - reflexivity.
  - exists σ'. split; [exact Hrun | exact Hc].
Defined.

(** C10: with [engines] an empty sequence (and no [engine]),
    [_instrument] returns the empty list, which is not None, and constructs
    no EngineTracer. *)
Theorem empty_engines_returns_empty_list
    (kwargs : gmap string value) (σ : world) (es : value) :
  installable σ = true →
  kwargs_get kwargs "engine" = VNone →
  kwargs !! "engines" = Some es →
  isinstance_Sequence es = true →
  iter es = [] →
  ∃ σ',
    _instrument kwargs σ = (σ', inr (RList []))
    ∧ RList [] ≠ RNone
    ∧ constructed σ' = constructed σ.
Proof.
  intros Hin He Hes Hseq Hempty.
  destruct (_instrument_run kwargs σ Hin) as (σ' & Hrun & _ & _ & Hc).
  assert (options_result kwargs = RList []) as Hres.
  { assert (kwargs_get kwargs "engines" = es) as Hget
      by (unfold kwargs_get; by rewrite Hes).
    unfold options_result. rewrite He, Hget, Hseq, Hempty.
    cbn [is_not_None]. by destruct es. }
  rewrite Hres in Hrun, Hc. cbn in Hc. rewrite app_nil_r in Hc.
  by exists σ'.
Qed.

Lemma empty_engines_returns_empty_list_witness :
  ∃ σ',
    _instrument {[ "engines" := VList [] ]} world_1_3 = (σ', inr (RList []))
    ∧ RList [] ≠ RNone
    ∧ constructed σ' = [].
Proof.
  apply (empty_engines_returns_empty_list
           {[ "engines" := VList [] ]} world_1_3 (VList [])).
  - vm_compute. reflexivity.
  - vm_compute. reflexivity.
  - vm_compute. reflexivity.
  - reflexivity.
  - reflexivity.
Defined.

(** ** The installation comes first *)

(** [_instrument] in terms of the outcome of the installation. *)
Lemma _instrument_after_install
    (kwargs : gmap string value) (σ σ1 : world) (out1 : exn + unit) :
  install_wrappers (kwargs_get kwargs "tracer_provider") σ = (σ1, out1) →
  _instrument kwargs σ
  = match out1 with
    | inr _ =>
        (MkWorld (attrs σ1) (release σ1)
           (constructed σ1 ++ tracers_of (options_result kwargs)),
         inr (options_result kwargs))
    | inl e => (σ1, inl e)
    end.
Proof.
  intros Hrun. rewrite _instrument_split. unfold bind. rewrite Hrun.
  destruct out1 as [e|[]]; [done|]. apply instrument_options_run.
Qed.

Lemma _instrument_attrs
    (kwargs : gmap string value) (σ σ1 : world) (out1 : exn + unit) :
  install_wrappers (kwargs_get kwargs "tracer_provider") σ = (σ1, out1) →
  attrs (_instrument kwargs σ).1 = attrs σ1.
Proof.
  intros Hrun. rewrite (_instrument_after_install kwargs σ σ1 out1 Hrun).
  by destruct out1.
Qed.

(** C5: every call of [_instrument], whatever options it is given, puts
    wrappers on [sqlalchemy.create_engine], [sqlalchemy.engine.create_engine]
    and [Engine.connect].  The installation (lines 138-155) runs first: the
    options are handled in the world it leaves, or not at all when it
    raises; and the attributes it leaves depend on the tracer provider
    only, not on [engine] or [engines]. *)
Theorem sync_wrappers_always_installed (kwargs : gmap string value) (σ : world) :
  sync_entry_points σ = true →
  ∃ σ1 out1,
    install_wrappers (kwargs_get kwargs "tracer_provider") σ = (σ1, out1)
    ∧ constructed σ1 = constructed σ
    ∧ _instrument kwargs σ
      = match out1 with
        | inr _ => instrument_options kwargs σ1
        | inl e => (σ1, inl e)
        end
    ∧ sync_wrappers_installed (kwargs_get kwargs "tracer_provider")
        σ (_instrument kwargs σ).1
    ∧ ∀ kwargs',
        kwargs_get kwargs' "tracer_provider"
        = kwargs_get kwargs "tracer_provider" →
        attrs (_instrument kwargs' σ).1 = attrs (_instrument kwargs σ).1.
Proof.
  intros Hsync.
  destruct (install_wrappers_sync (kwargs_get kwargs "tracer_provider") σ Hsync)
    as (σ1 & out1 & Hrun & Hinst & _ & _).
  exists σ1, out1. split; [done|].
  split; [by apply (install_wrappers_frame _ _ _ _ Hrun)|].
  split.
  { rewrite _instrument_split. unfold bind. rewrite Hrun.
    by destruct out1 as [e|[]]. }
  split.
  - unfold sync_wrappers_installed, wraps in *.
    by rewrite (_instrument_attrs kwargs σ σ1 out1 Hrun).
  - intros kwargs' Htp.
    rewrite (_instrument_attrs kwargs σ σ1 out1 Hrun).
    apply (_instrument_attrs kwargs' σ σ1 out1). by rewrite Htp.
Qed.

Lemma sync_wrappers_always_installed_witness :
  sync_wrappers_installed VNone world_1_3
    (_instrument {[ "engines" := VList [engine_a; engine_b] ]} world_1_3).1.
Proof.
  destruct (sync_wrappers_always_installed
              {[ "engines" := VList [engine_a; engine_b] ]} world_1_3)
    as (σ1 & out1 & _ & _ & _ & H & _).
  - vm_compute. reflexivity.
  - exact H.
Defined.

(** ** The version gate *)

(** C2: [create_async_engine] is wrapped exactly when the release is
    >= (1, 4).  Below (1, 4) the entry point is not touched and
    [_instrument] returns normally, also when the entry point does not
    exist. *)
Theorem async_wrap_version_gate (kwargs : gmap string value) (σ : world) :
  sync_entry_points σ = true →
  (tuple_ge (release σ) [1; 4] = false →
   ∃ σ' r,
     _instrument kwargs σ = (σ', inr r)
     ∧ attrs σ' !! create_async_engine_path
       = attrs σ !! create_async_engine_path)
  ∧ (∀ f, attrs σ !! create_async_engine_path = Some f →
     ∃ σ' r,
       _instrument kwargs σ = (σ', inr r)
       ∧ (attrs σ' !! create_async_engine_path
          = Some (FunctionWrapper f
                    (_wrap_create_async_engine
                       (kwargs_get kwargs "tracer_provider")))
          ↔ tuple_ge (release σ) [1; 4] = true)).
Proof.
  intros Hsync.
  destruct (install_wrappers_sync (kwargs_get kwargs "tracer_provider") σ Hsync)
    as (σ1 & out1 & Hrun & _ & Hlt & Hge).
  pose proof (_instrument_after_install kwargs σ σ1 out1 Hrun) as Hins.
  split.
  - intros E. destruct (Hlt E) as [-> Hsame].
    eexists _, _. split; [exact Hins|]. exact Hsame.
  - intros f Hf. destruct (tuple_ge (release σ) [1; 4]) eqn:E.
    + specialize (Hge eq_refl). rewrite Hf in Hge. destruct Hge as [-> Hw].
      eexists _, _. split; [exact Hins|]. cbn [attrs]. by rewrite Hw.
    + destruct (Hlt eq_refl) as [-> Hsame].
      eexists _, _. split; [exact Hins|]. cbn [attrs].
      rewrite Hsame, Hf. split; [|done].
      intros [= H]. symmetry in H. by apply FunctionWrapper_neq in H.
Qed.

(** A 1.3 library from which [sqlalchemy.ext.asyncio] is missing, as it
    is in such a release: [pristine] binds only the synchronous entry
    points there. *)
Lemma async_wrap_version_gate_witness :
  attrs world_1_3 !! create_async_engine_path = None
  ∧ ∃ σ' r,
      _instrument ∅ world_1_3 = (σ', inr r)
      ∧ attrs σ' !! create_async_engine_path = None.
Proof.
  split; [vm_compute; reflexivity|].
  destruct (async_wrap_version_gate ∅ world_1_3) as [Hlow _].
  - vm_compute. reflexivity.
  - destruct Hlow as (σ' & r & Hrun & Hsame); [vm_compute; reflexivity|].
    exists σ', r. split; [exact Hrun|]. rewrite Hsame.
    vm_compute. reflexivity.
Defined.

(** ** Commenter defaults *)

Lemma tracers_of_options_result (kwargs : gmap string value) (t : EngineTracer) :
  t ∈ tracers_of (options_result kwargs) → ∃ e, t = tracer_for kwargs e.
Proof.
  unfold options_result.
  destruct (is_not_None (kwargs_get kwargs "engine")).
  - cbn. intros ->%list_elem_of_singleton. by eexists.
  - destruct (_ && _); cbn.
    + intros (e & -> & _)%list_elem_of_fmap. by eexists.
    + by intros ?%elem_of_nil.
Qed.

(** C6: [enable_commenter] defaults to False and [commenter_options] to
    the empty mapping when omitted, and every EngineTracer the call
    constructs receives these values (or the supplied ones): the call
    returns, it constructs exactly the EngineTracers it returns, there is
    one for [engine] or one per element of [engines], and each of them has
    the values. *)
Theorem commenter_defaults (kwargs : gmap string value) (σ : world) :
  installable σ = true →
  ∃ σ' r,
    _instrument kwargs σ = (σ', inr r)
    ∧ constructed σ' = constructed σ ++ tracers_of r
    ∧ (kwargs_get kwargs "engine" ≠ VNone →
       ∃ t, r = RTracer t ∧ engine t = kwargs_get kwargs "engine")
    ∧ (kwargs_get kwargs "engine" = VNone →
       isinstance_Sequence (kwargs_get kwargs "engines") = true →
       ∃ ts, r = RList ts
             ∧ engine <$> ts = iter (kwargs_get kwargs "engines"))
    ∧ (kwargs !! "enable_commenter" = None →
       Forall (λ t, enable_commenter t = VBool false) (tracers_of r))
    ∧ (kwargs !! "commenter_options" = None →
       Forall (λ t, commenter_options t = VDict []) (tracers_of r))
    ∧ (∀ v, kwargs !! "enable_commenter" = Some v →
         Forall (λ t, enable_commenter t = v) (tracers_of r))
    ∧ (∀ v, kwargs !! "commenter_options" = Some v →
         Forall (λ t, commenter_options t = v) (tracers_of r)).
Proof.
  intros Hin.
  destruct (_instrument_run kwargs σ Hin) as (σ' & Hrun & _ & _ & Hc).
  exists σ', (options_result kwargs).
  split; [done|]. split; [done|]. split; [|split].
  - intros He. unfold options_result.
    destruct (kwargs_get kwargs "engine") eqn:E; try done; by eexists.
  - intros He Hseq. unfold options_result. rewrite He, Hseq.
    assert (is_not_None (kwargs_get kwargs "engines") = true) as ->
      by (by destruct (kwargs_get kwargs "engines")).
    cbn [is_not_None andb]. eexists. split; [reflexivity|].
    by apply tracers_of_engine.
  - repeat split; intros; apply Forall_forall; intros t Ht;
      destruct (tracers_of_options_result kwargs t Ht) as [e ->];
      unfold tracer_for, kwargs_get_default; cbn;
      match goal with H : kwargs !! _ = _ |- _ => by rewrite H end.
Qed.

Lemma commenter_defaults_witness :
  ∃ σ' ts,
    _instrument {[ "engines" := VList [engine_a; engine_b] ]} world_2_0
    = (σ', inr (RList ts))
    ∧ constructed σ' = ts
    ∧ engine <$> ts = [engine_a; engine_b]
    ∧ Forall (λ t, enable_commenter t = VBool false) ts
    ∧ Forall (λ t, commenter_options t = VDict []) ts.
Proof.
  destruct (commenter_defaults
              {[ "engines" := VList [engine_a; engine_b] ]} world_2_0)
    as (σ' & r & Hrun & Hc & _ & Hlist & Hec & Hco & _).
  - vm_compute. reflexivity.
  - destruct Hlist as (ts & -> & Hts).
    + vm_compute. reflexivity.
    + vm_compute. reflexivity.
    + exists σ', ts. split; [exact Hrun|]. split; [exact Hc|].
      split; [exact Hts|]. split.
      * apply Hec. vm_compute. reflexivity.
      * apply Hco. vm_compute. reflexivity.
Defined.

(** ** Uninstrumenting *)

(** The three synchronous unwraps, run from a world where the entry points
    hold wrappers. *)
Lemma _uninstrument_run (σ : world)
    (g1 g2 g3 : callable) (w1 w2 w3 : wrapper) :
  attrs σ !! create_engine_path = Some (FunctionWrapper g1 w1) →
  attrs σ !! engine_create_engine_path = Some (FunctionWrapper g2 w2) →
  attrs σ !! connect_path = Some (FunctionWrapper g3 w3) →
  _uninstrument σ
  = let σ3 := MkWorld
                (<[connect_path := g3]>
                 (<[engine_create_engine_path := g2]>
                  (<[create_engine_path := g1]> (attrs σ))))
                (release σ) (constructed σ) in
    if tuple_ge (release σ) [1; 4]
    then unwrap sqlalchemy_ext_asyncio "create_async_engine" σ3
    else (σ3, inr tt).
Proof.
  intros H1 H2 H3. unfold _uninstrument.
  unfold bind at 1. rewrite (unwrap_wrapper _ _ _ g1 w1) by exact H1.
  unfold bind at 1. rewrite (unwrap_wrapper _ _ _ g2 w2); last first.
  { cbn [setattr attrs]. rewrite lookup_insert_ne by path_ne. exact H2. }
  unfold bind at 1. rewrite (unwrap_wrapper _ _ _ g3 w3); last first.
  { cbn [setattr attrs]. do 2 rewrite lookup_insert_ne by path_ne. exact H3. }
  unfold bind, sqlalchemy_release. cbn [setattr attrs release constructed].
  change (qualname sqlalchemy "create_engine") with create_engine_path.
  change (qualname sqlalchemy_engine "create_engine")
    with engine_create_engine_path.
  change (qualname Engine "connect") with connect_path.
  destruct (tuple_ge (release σ) [1; 4]); [|done].
  by destruct (unwrap _ _ _) as [? [?|[]]].
Qed.

Lemma sync_unwrapped (tp : value) (f1 f2 f3 : callable)
    (m : gmap string callable) :
  m !! create_engine_path = Some f1 →
  m !! engine_create_engine_path = Some f2 →
  m !! connect_path = Some f3 →
  <[connect_path := f3]>
  (<[engine_create_engine_path := f2]>
   (<[create_engine_path := f1]> (sync_wrapped tp f1 f2 f3 m))) = m.
Proof.
  intros H1 H2 H3. unfold sync_wrapped. apply map_eq. intros k.
  destruct (decide (k = connect_path)) as [->|N3].
  { by rewrite lookup_insert_eq. }
  rewrite lookup_insert_ne by congruence.
  destruct (decide (k = engine_create_engine_path)) as [->|N2].
  { by rewrite lookup_insert_eq. }
  rewrite lookup_insert_ne by congruence.
  destruct (decide (k = create_engine_path)) as [->|N1].
  { by rewrite lookup_insert_eq. }
  by repeat rewrite lookup_insert_ne by congruence.
Qed.

Lemma all_unwrapped (tp : value) (f1 f2 f3 f4 : callable)
    (m : gmap string callable) :
  m !! create_engine_path = Some f1 →
  m !! engine_create_engine_path = Some f2 →
  m !! connect_path = Some f3 →
  m !! create_async_engine_path = Some f4 →
  <[create_async_engine_path := f4]>
  (<[connect_path := f3]>
   (<[engine_create_engine_path := f2]>
    (<[create_engine_path := f1]>
     (<[create_async_engine_path :=
          FunctionWrapper f4 (_wrap_create_async_engine tp)]>
        (sync_wrapped tp f1 f2 f3 m))))) = m.
Proof.
  intros H1 H2 H3 H4. unfold sync_wrapped. apply map_eq. intros k.
  destruct (decide (k = create_async_engine_path)) as [->|N4].
  { by rewrite lookup_insert_eq. }
  rewrite lookup_insert_ne by congruence.
  destruct (decide (k = connect_path)) as [->|N3].
  { by rewrite lookup_insert_eq. }
  rewrite lookup_insert_ne by congruence.
  destruct (decide (k = engine_create_engine_path)) as [->|N2].
  { by rewrite lookup_insert_eq. }
  rewrite lookup_insert_ne by congruence.
  destruct (decide (k = create_engine_path)) as [->|N1].
  { by rewrite lookup_insert_eq. }
  by repeat rewrite lookup_insert_ne by congruence.
Qed.

(** C4: [_uninstrument] after [_instrument] rebinds every entry point that
    [_instrument] wrapped to what it held before: both import paths of
    [create_engine], [Engine.connect], and [create_async_engine] under the
    same test on the release, which is not looked at below (1, 4).  The
    attribute table is then the one from before the instrumentation, so a
    later engine creation or connect calls the same callable as before; and
    [_uninstrument] itself constructs no EngineTracer. *)
Theorem uninstrument_restores (kwargs : gmap string value) (σ : world) :
  installable σ = true →
  ∃ σ' r σ'',
    _instrument kwargs σ = (σ', inr r)
    ∧ wrappers_installed (kwargs_get kwargs "tracer_provider") σ σ'
    ∧ _uninstrument σ' = (σ'', inr tt)
    ∧ attrs σ'' = attrs σ
    ∧ release σ'' = release σ
    ∧ constructed σ'' = constructed σ'.
Proof.
  intros Hin.
  destruct (_instrument_run kwargs σ Hin) as (σ' & Hrun & Hw & Hr & Hc).
  destruct (sync_entry_points_lookup σ (installable_sync σ Hin))
    as (f1 & f2 & f3 & H1 & H2 & H3).
  set (tp := kwargs_get kwargs "tracer_provider") in *.
  assert (attrs σ'
          = if tuple_ge (release σ) [1; 4]
            then match attrs σ !! create_async_engine_path with
                 | Some f4 =>
                     <[create_async_engine_path :=
                         FunctionWrapper f4 (_wrap_create_async_engine tp)]>
                       (sync_wrapped tp f1 f2 f3 (attrs σ))
                 | None => sync_wrapped tp f1 f2 f3 (attrs σ)
                 end
            else sync_wrapped tp f1 f2 f3 (attrs σ)) as Hattrs.
  { pose proof (install_wrappers_run tp σ f1 f2 f3 H1 H2 H3) as Hi.
    cbn zeta in Hi.
    destruct (sync_wrapped_lookup tp f1 f2 f3 (attrs σ)) as (_ & _ & _ & L4).
    destruct (tuple_ge (release σ) [1; 4]) eqn:E.
    - destruct (attrs σ !! create_async_engine_path) as [f4|] eqn:H4.
      + rewrite (_w_found _ _ _ _ f4) in Hi by exact L4.
        rewrite (_instrument_after_install kwargs σ _ _ Hi) in Hrun.
        by injection Hrun as <-.
      + rewrite _w_missing in Hi by exact L4.
        rewrite (_instrument_after_install kwargs σ _ _ Hi) in Hrun.
        discriminate Hrun.
    - rewrite (_instrument_after_install kwargs σ _ _ Hi) in Hrun.
      by injection Hrun as <-. }
  destruct (sync_wrapped_lookup tp f1 f2 f3 (attrs σ)) as (L1 & L2 & L3 & L4).
  exists σ', (options_result kwargs).
  destruct (tuple_ge (release σ) [1; 4]) eqn:E.
  - destruct (installable_async σ Hin E) as [f4 H4]. rewrite H4 in Hattrs.
    rewrite (_uninstrument_run σ' f1 f2 f3
               (_wrap_create_engine tp) (_wrap_create_engine tp)
               (_wrap_connect tp)); cycle 1.
    { rewrite Hattrs. by rewrite lookup_insert_ne by path_ne. }
    { rewrite Hattrs. by rewrite lookup_insert_ne by path_ne. }
    { rewrite Hattrs. by rewrite lookup_insert_ne by path_ne. }
    cbn zeta. rewrite Hr, E.
    rewrite (unwrap_wrapper _ _ _ f4 (_wrap_create_async_engine tp));
      last first.
    { cbn [attrs]. do 3 rewrite lookup_insert_ne by path_ne.
      rewrite Hattrs. apply lookup_insert_eq. }
    eexists. split; [done|]. split; [done|]. split; [reflexivity|].
    cbn [setattr attrs release constructed]. split; [|done].
    change (qualname sqlalchemy_ext_asyncio "create_async_engine")
      with create_async_engine_path.
    rewrite Hattrs. by apply all_unwrapped.
  - rewrite (_uninstrument_run σ' f1 f2 f3
               (_wrap_create_engine tp) (_wrap_create_engine tp)
               (_wrap_connect tp)); cycle 1.
    { by rewrite Hattrs. }
    { by rewrite Hattrs. }
    { by rewrite Hattrs. }
    cbn zeta. rewrite Hr, E.
    eexists. split; [done|]. split; [done|]. split; [reflexivity|].
    cbn [attrs release constructed]. split; [|done].
    rewrite Hattrs. by apply sync_unwrapped.
Qed.

Lemma uninstrument_restores_witness :
  ∃ σ' r σ'',
    _instrument {[ "engine" := engine_a ]} world_2_0 = (σ', inr r)
    ∧ _uninstrument σ' = (σ'', inr tt)
    ∧ attrs σ'' = attrs world_2_0.
Proof.
  destruct (uninstrument_restores {[ "engine" := engine_a ]} world_2_0)
    as (σ' & r & σ'' & Hrun & _ & Hun & Hattrs & _).
  - vm_compute. reflexivity.
  - exists σ', r, σ''. split; [exact Hrun|]. split; [exact Hun | exact Hattrs].
Defined.

Example uninstrument_after_instrument_2_0 :
  attrs (_uninstrument
           (_instrument {[ "engine" := engine_a ]} world_2_0).1).1
  = attrs world_2_0.
Proof. vm_compute. reflexivity. Qed.

Example uninstrument_after_instrument_1_3 :
  attrs (_uninstrument (_instrument ∅ world_1_3).1).1 = attrs world_1_3.
Proof. vm_compute. reflexivity. Qed.

Example commenter_select_1 :
  (before_cursor_execute tracer_commenting sample_context 1
     "SELECT 1" (VTuple []) no_spans).2.1
  = "SELECT 1 /*db_driver='psycopg2',db_framework='sqlalchemy:2.0.0',traceparent='00-03afa25236b8cd948fa853d67038ac79-405ff022e8247c46-01'*/;".
Proof. vm_compute. reflexivity. Qed.

Example interleaved_ok : host_ok ∅ interleaved = true.
Proof. vm_compute. reflexivity. Qed.

(** ** Spans are closed exactly once *)

Lemma no_spans_inv : spans_inv no_spans ∅.
Proof.
  unfold spans_inv, no_spans. cbn.
  split; [apply dom_empty_L|]. rewrite map_to_list_empty. cbn.
  split; [done|]. split; [apply NoDup_nil_2 | apply Forall_nil_2].
Qed.

Lemma before_cursor_execute_inv (t : EngineTracer) (cc : comment_context)
    (ctx : nat) (statement : string) (parameters : value)
    (s : spans) (inflight : gset nat) :
  spans_inv s inflight →
  ctx ∉ inflight →
  spans_inv (before_cursor_execute t cc ctx statement parameters s).1
    ({[ctx]} ∪ inflight).
Proof.
  intros (Hdom & Hperm & Hnodup & Hlt) Hfresh.
  assert (active s !! ctx = None) as Hnone
    by (apply not_elem_of_dom; by rewrite Hdom).
  unfold spans_inv, before_cursor_execute.
  cbn [fst opened active closed next_span].
  split; [by rewrite dom_insert_L, Hdom|]. split; [|split].
  - rewrite map_to_list_insert by done. rewrite fmap_cons. cbn [snd].
    rewrite <- (Permutation_middle (closed s).*1), <- Hperm.
    symmetry. apply Permutation_cons_append.
  - apply NoDup_app. split; [done|]. split; [|apply NoDup_singleton].
    intros x Hx ->%list_elem_of_singleton.
    rewrite Forall_forall in Hlt. specialize (Hlt _ Hx). lia.
  - apply Forall_app. split.
    + eapply Forall_impl; [exact Hlt|]. intros x Hx. cbn in Hx. lia.
    + apply Forall_singleton. lia.
Qed.

Lemma close_span_inv (ctx : nat) (st : status) (s : spans) (inflight : gset nat) :
  spans_inv s inflight →
  ctx ∈ inflight →
  spans_inv (close_span ctx st s) (inflight ∖ {[ctx]})
  ∧ (closed (close_span ctx st s)).*2 = (closed s).*2 ++ [st]
  ∧ opened (close_span ctx st s) = opened s.
Proof.
  intros (Hdom & Hperm & Hnodup & Hlt) Hin.
  assert (is_Some (active s !! ctx)) as [span Hspan]
    by (apply elem_of_dom; by rewrite Hdom).
  unfold close_span. rewrite Hspan. unfold spans_inv.
  cbn [opened active closed next_span].
  split; [|split; [by rewrite fmap_app | done]].
  split; [by rewrite dom_delete_L, Hdom|]. split; [|done].
  rewrite Hperm, <- (map_to_list_delete (active s) ctx span Hspan).
  rewrite fmap_app, fmap_cons. cbn [fst snd fmap list_fmap].
  by rewrite <- app_assoc.
Qed.

Lemma run_hooks_inv (t : EngineTracer) (evs : list event) :
  ∀ (s : spans) (inflight : gset nat),
    spans_inv s inflight →
    host_ok inflight evs = true →
    spans_inv (run_hooks t evs s).1 ∅
    ∧ (closed (run_hooks t evs s).1).*2 = (closed s).*2 ++ outcomes evs
    ∧ length (opened (run_hooks t evs s).1)
      = length (opened s) + executions evs.
Proof.
  induction evs as [|ev evs IH]; intros s inflight Hinv Hok.
  - cbn in *. apply bool_decide_eq_true in Hok as ->.
    rewrite app_nil_r. split; [done|]. split; [done | lia].
  - destruct ev as [ctx cc statement parameters | ctx | ctx err];
      cbn [host_ok] in Hok; apply andb_prop in Hok as [Hctx Hok];
      apply bool_decide_eq_true in Hctx.
    + pose proof (before_cursor_execute_inv t cc ctx statement parameters
                    s inflight Hinv Hctx) as Hinv'.
      cbn [run_hooks].
      destruct (before_cursor_execute t cc ctx statement parameters s)
        as [s1 sent] eqn:Hb.
      destruct (IH s1 _ Hinv' Hok) as (H1 & H2 & H3).
      destruct (run_hooks t evs s1) as [s2 rest]. cbn [fst] in *.
      split; [done|].
      assert (closed s1 = closed s ∧ opened s1 = opened s ++ [next_span s])
        as [Hc Ho] by (by injection Hb as <- _).
      rewrite Hc in H2. rewrite Ho, length_app in H3.
      split; [done|]. cbn [executions length] in *. lia.
    + destruct (close_span_inv ctx StatusOk s inflight Hinv Hctx)
        as (Hinv' & Hc & Ho).
      cbn [run_hooks outcomes executions]. unfold after_cursor_execute.
      destruct (IH _ _ Hinv' Hok) as (H1 & H2 & H3).
      split; [done|]. rewrite H2, H3, Hc, Ho.
      split; [by rewrite <- app_assoc | done].
    + destruct (close_span_inv ctx (StatusError err) s inflight Hinv Hctx)
        as (Hinv' & Hc & Ho).
      cbn [run_hooks outcomes executions]. unfold handle_error.
      destruct (IH _ _ Hinv' Hok) as (H1 & H2 & H3).
      split; [done|]. rewrite H2, H3, Hc, Ho.
      split; [by rewrite <- app_assoc | done].
Qed.

Lemma run_hooks_before (t : EngineTracer) (ctx : nat) (cc : comment_context)
    (statement : string) (parameters : value) (evs : list event) (s : spans) :
  (run_hooks t (BeforeExecute ctx cc statement parameters :: evs) s).1
  = (run_hooks t evs
       (before_cursor_execute t cc ctx statement parameters s).1).1.
Proof.
  cbn [run_hooks].
  destruct (before_cursor_execute t cc ctx statement parameters s) as [s1 sent].
  cbn [fst]. by destruct (run_hooks t evs s1).
Qed.

Lemma run_hooks_app (t : EngineTracer) (l1 l2 : list event) :
  ∀ s, (run_hooks t (l1 ++ l2) s).1
       = (run_hooks t l2 (run_hooks t l1 s).1).1.
Proof.
  induction l1 as [|ev l1 IH]; intros s; [done|].
  destruct ev as [ctx cc statement parameters | ctx | ctx err].
  - rewrite <- app_comm_cons, !run_hooks_before. apply IH.
  - apply IH.
  - apply IH.
Qed.

(** Spans are numbered in the order they are opened, and closing only
    appends to the closed spans. *)
Lemma run_hooks_grows (t : EngineTracer) (evs : list event) :
  ∀ s,
    next_span (run_hooks t evs s).1 = next_span s + executions evs
    ∧ opened (run_hooks t evs s).1
      = opened s ++ seq (next_span s) (executions evs)
    ∧ ∃ k, closed (run_hooks t evs s).1 = closed s ++ k.
Proof.
  induction evs as [|ev evs IH]; intros s.
  - cbn. rewrite app_nil_r. split; [lia|]. split; [done|].
    exists []. by rewrite app_nil_r.
  - destruct ev as [ctx cc statement parameters | ctx | ctx err].
    + rewrite run_hooks_before.
      destruct (IH (before_cursor_execute t cc ctx statement parameters s).1)
        as (Hn & Ho & k & Hk).
      unfold before_cursor_execute in *.
      cbn [fst next_span opened closed executions seq] in *.
      split; [lia|]. split; [by rewrite Ho, <- app_assoc|]. by exists k.
    + cbn [run_hooks executions]. unfold after_cursor_execute, close_span.
      destruct (active s !! ctx) as [span|]; [|apply IH].
      destruct (IH (MkSpans (next_span s) (opened s) (delete ctx (active s))
                      (closed s ++ [(span, StatusOk)])))
        as (Hn & Ho & k & Hk).
      cbn [next_span opened closed] in *. split; [done|]. split; [done|].
      exists ((span, StatusOk) :: k). by rewrite Hk, <- app_assoc.
    + cbn [run_hooks executions]. unfold handle_error, close_span.
      destruct (active s !! ctx) as [span|]; [|apply IH].
      destruct (IH (MkSpans (next_span s) (opened s) (delete ctx (active s))
                      (closed s ++ [(span, StatusError err)])))
        as (Hn & Ho & k & Hk).
      cbn [next_span opened closed] in *. split; [done|]. split; [done|].
      exists ((span, StatusError err) :: k). by rewrite Hk, <- app_assoc.
Qed.

(** Notifications for other execution contexts leave the span of [ctx]
    in the active set. *)
Lemma run_hooks_other_contexts (t : EngineTracer) (ctx span : nat)
    (evs : list event) :
  Forall (λ ev, event_ctx ev ≠ ctx) evs →
  ∀ s, active s !! ctx = Some span →
       (active (run_hooks t evs s).1) !! ctx = Some span.
Proof.
  induction 1 as [|ev evs Hev _ IH]; intros s Hs; [done|].
  destruct ev as [c cc statement parameters | c | c err]; cbn in Hev.
  - rewrite run_hooks_before. apply IH.
    unfold before_cursor_execute. cbn [fst active].
    by rewrite lookup_insert_ne.
  - cbn [run_hooks]. apply IH. unfold after_cursor_execute, close_span.
    destruct (active s !! c); [|done]. cbn [active].
    by rewrite lookup_delete_ne.
  - cbn [run_hooks]. apply IH. unfold handle_error, close_span.
    destruct (active s !! c); [|done]. cbn [active].
    by rewrite lookup_delete_ne.
Qed.

(** The hook that ends an execution closes the span that the execution's
    own before-execute hook opened, with the status of its path, whatever
    happens on other execution contexts in between. *)
Lemma run_hooks_correlates (t : EngineTracer)
    (pre mid post : list event) (ctx : nat) (cc : comment_context)
    (statement : string) (parameters : value) (ending : event) (st : status) :
  Forall (λ ev, event_ctx ev ≠ ctx) mid →
  event_ctx ending = ctx →
  close_status ending = Some st →
  ∃ span,
    (span ∉ opened (run_hooks t pre no_spans).1)
    ∧ (active (run_hooks t
                 (pre ++ [BeforeExecute ctx cc statement parameters])
                 no_spans).1) !! ctx = Some span
    ∧ (span, st)
      ∈ closed (run_hooks t
                  (pre ++ BeforeExecute ctx cc statement parameters
                       :: mid ++ ending :: post) no_spans).1.
Proof.
  intros Hmid Hctx Hst.
  set (s1 := (run_hooks t pre no_spans).1).
  destruct (run_hooks_grows t pre no_spans) as (Hn & Ho & _).
  fold s1 in Hn, Ho. cbn in Hn, Ho.
  exists (next_span s1). split; [|split].
  - rewrite Ho, Hn. intros Hin%elem_of_seq. lia.
  - rewrite run_hooks_app. fold s1. rewrite run_hooks_before.
    cbn [run_hooks fst]. unfold before_cursor_execute. cbn [fst active].
    apply lookup_insert_eq.
  - rewrite run_hooks_app. fold s1. rewrite run_hooks_before.
    rewrite run_hooks_app.
    set (s2 := (before_cursor_execute t cc ctx statement parameters s1).1).
    assert (active s2 !! ctx = Some (next_span s1)) as Hs2
      by apply lookup_insert_eq.
    pose proof (run_hooks_other_contexts t ctx _ mid Hmid s2 Hs2) as Hs3.
    set (s3 := (run_hooks t mid s2).1) in *.
    assert (∃ s4, (run_hooks t (ending :: post) s3).1
                  = (run_hooks t post s4).1
                  ∧ closed s4 = closed s3 ++ [(next_span s1, st)])
      as (s4 & -> & Hs4).
    { destruct ending as [c ? ? ? | c | c err]; cbn in Hctx, Hst;
        [done| |]; subst c; injection Hst as <-; cbn [run_hooks];
        unfold after_cursor_execute, handle_error, close_span;
        rewrite Hs3; by eexists. }
    destruct (run_hooks_grows t post s4) as (_ & _ & k & ->).
    rewrite Hs4. apply elem_of_app. left. apply elem_of_app. right.
    by apply list_elem_of_singleton.
Qed.

(** C3: over any interleaving of statement executions that respects the
    host's ordering guarantee, every span the before-execute hook opened is
    closed exactly once, by the after-execute hook (success status) or by
    the error hook (error status): as many spans are closed as were opened,
    one per execution, none is left active, and no span is closed twice.
    The pairing goes by the execution context: the hook that ends an
    execution closes the span opened by that execution's own before-execute
    hook, with the status of its own path, while executions on other
    contexts run in between. *)
Theorem spans_closed_exactly_once (t : EngineTracer) (evs : list event) :
  host_ok ∅ evs = true →
  length (opened (run_hooks t evs no_spans).1) = executions evs
  ∧ length (closed (run_hooks t evs no_spans).1)
    = length (opened (run_hooks t evs no_spans).1)
  ∧ active (run_hooks t evs no_spans).1 = ∅
  ∧ NoDup (closed (run_hooks t evs no_spans).1).*1
  ∧ (closed (run_hooks t evs no_spans).1).*1
    ≡ₚ opened (run_hooks t evs no_spans).1
  ∧ (closed (run_hooks t evs no_spans).1).*2 = outcomes evs
  ∧ ∀ pre ctx cc statement parameters mid ending st post,
      evs = pre ++ BeforeExecute ctx cc statement parameters
                :: mid ++ ending :: post →
      Forall (λ ev, event_ctx ev ≠ ctx) mid →
      event_ctx ending = ctx →
      close_status ending = Some st →
      ∃ span,
        (span ∉ opened (run_hooks t pre no_spans).1)
        ∧ (active (run_hooks t
                     (pre ++ [BeforeExecute ctx cc statement parameters])
                     no_spans).1) !! ctx = Some span
        ∧ (span, st) ∈ closed (run_hooks t evs no_spans).1.
Proof.
  intros Hok.
  destruct (run_hooks_inv t evs no_spans ∅ no_spans_inv Hok)
    as ((Hdom & Hperm & Hnodup & _) & Hst & Hlen).
  split; [exact Hlen|].
  apply dom_empty_inv_L in Hdom.
  rewrite Hdom, map_to_list_empty in Hperm. cbn in Hperm.
  rewrite app_nil_r in Hperm.
  split; [by rewrite Hperm, length_fmap|].
  split; [exact Hdom|]. split; [by rewrite <- Hperm|].
  split; [done|]. split; [exact Hst|].
  intros pre ctx cc statement parameters mid ending st post -> Hmid Hctx Hcl.
  by apply run_hooks_correlates.
Qed.

Lemma spans_closed_exactly_once_witness :
  length (closed (run_hooks tracer_plain interleaved no_spans).1) = 3
  ∧ ∃ span,
      (active (run_hooks tracer_plain
                 [BeforeExecute 1 sample_context "SELECT 1" (VTuple [])]
                 no_spans).1) !! 1 = Some span
      ∧ (span, StatusOk)
        ∈ closed (run_hooks tracer_plain interleaved no_spans).1.
Proof.
  destruct (spans_closed_exactly_once tracer_plain interleaved)
    as (Ho & Hc & _ & _ & _ & _ & Hpair).
  - vm_compute. reflexivity.
  - split; [rewrite Hc; exact Ho|].
    destruct (Hpair [] 1 sample_context "SELECT 1" (VTuple [])
                [BeforeExecute 2 sample_context "SELECT x FROM t WHERE y = ?"
                   (VTuple [VInt 7]);
                 HandleError 2 "OperationalError"]
                (AfterExecute 1) StatusOk
                [BeforeExecute 1 sample_context "SELECT 2" (VTuple []);
                 AfterExecute 1])
      as (span & _ & Hactive & Hclosed).
    + reflexivity.
    + repeat constructor; cbn; lia.
    + reflexivity.
    + reflexivity.
    + exists span. split; [exact Hactive | exact Hclosed].
Defined.

(** ** The commenter and the subscribed EngineTracers *)









(** * Further properties of the instrumentor *)

(** ** One unwrap, attribute by attribute *)

Ltac path_cases :=
  repeat case_bool_decide; subst; try discriminate; try done.

Lemma unwrap_spec (obj attr : string) (σ : world) :
  ∃ σ',
    unwrap obj attr σ = (σ', inr tt)
    ∧ release σ' = release σ
    ∧ constructed σ' = constructed σ
    ∧ ∀ p, attrs σ' !! p
           = if bool_decide (p = qualname obj attr)
             then strip (attrs σ !! p) else attrs σ !! p.
Proof.
  unfold unwrap.
  destruct (attrs σ !! qualname obj attr) as [[n|f w]|] eqn:H;
    (eexists; split; [reflexivity|]; split; [done|]; split; [done|]);
    intros p; case_bool_decide as Hp; subst; cbn [setattr attrs];
    rewrite ?H; cbn [strip]; try done.
  - apply lookup_insert_eq.
  - by rewrite lookup_insert_ne.
Qed.

Lemma _uninstrument_spec (σ : world) :
  ∃ σ',
    _uninstrument σ = (σ', inr tt)
    ∧ release σ' = release σ
    ∧ constructed σ' = constructed σ
    ∧ ∀ p, attrs σ' !! p
           = if entry_point (release σ) p
             then strip (attrs σ !! p) else attrs σ !! p.
Proof.
  unfold _uninstrument, bind, sqlalchemy_release.
  destruct (unwrap_spec sqlalchemy "create_engine" σ)
    as (σ1 & -> & R1 & C1 & A1).
  destruct (unwrap_spec sqlalchemy_engine "create_engine" σ1)
    as (σ2 & -> & R2 & C2 & A2).
  destruct (unwrap_spec Engine "connect" σ2) as (σ3 & -> & R3 & C3 & A3).
  assert (release σ3 = release σ) as R by congruence.
  assert (constructed σ3 = constructed σ) as C by congruence.
  assert (∀ p, attrs σ3 !! p
               = if bool_decide (p = create_engine_path)
                    || bool_decide (p = engine_create_engine_path)
                    || bool_decide (p = connect_path)
                 then strip (attrs σ !! p) else attrs σ !! p) as A.
  { intros p. rewrite A3, A2, A1.
    change (qualname sqlalchemy "create_engine") with create_engine_path.
    change (qualname sqlalchemy_engine "create_engine")
      with engine_create_engine_path.
    change (qualname Engine "connect") with connect_path.
    path_cases. }
  rewrite R. unfold entry_point.
  destruct (tuple_ge (release σ) [1; 4]).
  - destruct (unwrap_spec sqlalchemy_ext_asyncio "create_async_engine" σ3)
      as (σ4 & -> & R4 & C4 & A4).
    exists σ4. split; [done|]. split; [congruence|]. split; [congruence|].
    intros p. rewrite A4, A.
    change (qualname sqlalchemy_ext_asyncio "create_async_engine")
      with create_async_engine_path.
    path_cases.
  - exists σ3. split; [done|]. split; [done|]. split; [done|].
    intros p. rewrite A. by rewrite andb_false_l, orb_false_r.
Qed.

(** ** The wraps, attribute by attribute *)

Lemma _w_spec (module name : string) (w : wrapper) (σ : world) :
  ∃ σ' out,
    _w module name w σ = (σ', out)
    ∧ release σ' = release σ
    ∧ constructed σ' = constructed σ
    ∧ (∀ p, attrs σ' !! p
            = if bool_decide (p = qualname module name)
              then wrap_with w (attrs σ !! p) else attrs σ !! p)
    ∧ out = (if bool_decide (is_Some (attrs σ !! qualname module name))
             then inr tt else inl (AttributeError module name)).
Proof.
  unfold _w.
  destruct (attrs σ !! qualname module name) as [f|] eqn:H;
    (eexists _, _; split; [reflexivity|]; split; [done|]; split; [done|]).
  - split.
    + intros p. case_bool_decide as Hp; subst; cbn [setattr attrs].
      * rewrite H. apply lookup_insert_eq.
      * by rewrite lookup_insert_ne.
    + by rewrite bool_decide_eq_true_2.
  - split.
    + intros p. case_bool_decide as Hp; subst; [by rewrite H | done].
    + rewrite bool_decide_eq_false_2; [done|]. by intros [? ?].
Qed.

Ltac w_step σ' R C A :=
  match goal with
  | |- context [_w ?m ?n ?w ?σ] =>
      let out := fresh "out" in
      let Hrun := fresh "Hrun" in
      let O := fresh "O" in
      destruct (_w_spec m n w σ) as (σ' & out & Hrun & R & C & A & O);
      rewrite Hrun; clear Hrun; subst out;
      let q := eval vm_compute in (qualname m n) in
      change (qualname m n) with q in *
  end.

(** The installation on any world: its outcome is decided by
    [first_missing]; it touches only entry points of the release; and when
    it returns, each of them holds its wrapper around what was there. *)
Lemma install_wrappers_outcome (tp : value) (σ : world) :
  ∃ σ1,
    install_wrappers tp σ
    = (σ1, match first_missing σ with Some e => inl e | None => inr tt end)
    ∧ release σ1 = release σ
    ∧ constructed σ1 = constructed σ
    ∧ (∀ p, entry_point (release σ) p = false →
            attrs σ1 !! p = attrs σ !! p)
    ∧ (first_missing σ = None →
       ∀ p, attrs σ1 !! p
            = if entry_point (release σ) p
              then wrap_with (wrapper_at tp p) (attrs σ !! p)
              else attrs σ !! p).
Proof.
  unfold install_wrappers, first_missing, entry_point, wrapper_at.
  unfold bind at 1. w_step σ1 R1 C1 A1.
  destruct (bool_decide (is_Some (attrs σ !! create_engine_path))) eqn:E1;
    cbn [negb]; last first.
  { exists σ1. split; [done|]. split; [done|]. split; [done|].
    split; [|done]. intros p Hp. rewrite A1. path_cases. }
  unfold bind at 1. w_step σ2 R2 C2 A2.
  rewrite A1 in *.
  rewrite (bool_decide_eq_false_2
             (engine_create_engine_path = create_engine_path)) by done.
  destruct (bool_decide (is_Some (attrs σ !! engine_create_engine_path)))
    eqn:E2; cbn [negb]; last first.
  { exists σ2. split; [done|]. split; [congruence|]. split; [congruence|].
    split; [|done]. intros p Hp. rewrite A2, A1. path_cases. }
  unfold bind at 1. w_step σ3 R3 C3 A3.
  rewrite A2, A1 in *.
  rewrite (bool_decide_eq_false_2
             (connect_path = engine_create_engine_path)) by done.
  rewrite (bool_decide_eq_false_2 (connect_path = create_engine_path))
    by done.
  destruct (bool_decide (is_Some (attrs σ !! connect_path)))
    eqn:E3; cbn [negb]; last first.
  { exists σ3. split; [done|]. split; [congruence|]. split; [congruence|].
    split; [|done]. intros p Hp. rewrite A3, A2, A1. path_cases. }
  unfold bind, sqlalchemy_release.
  assert (release σ3 = release σ) as R by congruence. rewrite R.
  destruct (tuple_ge (release σ) [1; 4]) eqn:E; cbn [andb].
  - w_step σ4 R4 C4 A4.
    rewrite A3, A2, A1 in *.
    rewrite (bool_decide_eq_false_2
               (create_async_engine_path = connect_path)) by done.
    rewrite (bool_decide_eq_false_2
               (create_async_engine_path = engine_create_engine_path))
      by done.
    rewrite (bool_decide_eq_false_2
               (create_async_engine_path = create_engine_path)) by done.
    exists σ4.
    destruct (bool_decide (is_Some (attrs σ !! create_async_engine_path)))
      eqn:E4; cbn [negb];
      (split; [done|]; split; [congruence|]; split; [congruence|]).
    + split.
      * intros p Hp. rewrite A4, A3, A2, A1. path_cases.
      * intros _ p. rewrite A4, A3, A2, A1. path_cases.
    + split; [|done]. intros p Hp. rewrite A4, A3, A2, A1. path_cases.
  - exists σ3. split; [done|]. split; [done|]. split; [congruence|]. split.
    + intros p Hp. rewrite A3, A2, A1. path_cases.
    + intros _ p. rewrite A3, A2, A1. path_cases.
Qed.

Lemma first_missing_installable (σ : world) :
  first_missing σ = None ↔ installable σ = true.
Proof.
  unfold first_missing, installable.
  destruct (bool_decide (is_Some (attrs σ !! create_engine_path)));
    cbn [negb andb]; [|done].
  destruct (bool_decide (is_Some (attrs σ !! engine_create_engine_path)));
    cbn [negb andb]; [|done].
  destruct (bool_decide (is_Some (attrs σ !! connect_path)));
    cbn [negb andb]; [|done].
  destruct (tuple_ge (release σ) [1; 4]); cbn [andb]; [|done].
  by destruct (bool_decide (is_Some (attrs σ !! create_async_engine_path))).
Qed.

Lemma _instrument_spec (kwargs : gmap string value) (σ : world) :
  ∃ σ',
    _instrument kwargs σ
    = (σ', match first_missing σ with
           | Some e => inl e
           | None => inr (options_result kwargs)
           end)
    ∧ release σ' = release σ
    ∧ constructed σ'
      = constructed σ
        ++ match first_missing σ with
           | Some _ => []
           | None => tracers_of (options_result kwargs)
           end
    ∧ (∀ p, entry_point (release σ) p = false →
            attrs σ' !! p = attrs σ !! p)
    ∧ (first_missing σ = None →
       ∀ p, attrs σ' !! p
            = if entry_point (release σ) p
              then wrap_with
                     (wrapper_at (kwargs_get kwargs "tracer_provider") p)
                     (attrs σ !! p)
              else attrs σ !! p).
Proof.
  destruct (install_wrappers_outcome (kwargs_get kwargs "tracer_provider") σ)
    as (σ1 & Hrun & R & C & Hframe & Hwrap).
  rewrite (_instrument_after_install kwargs σ σ1 _ Hrun).
  destruct (first_missing σ) as [e|].
  - exists σ1. rewrite app_nil_r. by repeat split.
  - eexists. split; [reflexivity|]. cbn [attrs release constructed].
    rewrite C. by repeat split.
Qed.

(** From release (1, 4) on, when [create_async_engine] cannot be resolved
    the call raises after the three synchronous wraps: they stay in place
    (nothing is rolled back), and no EngineTracer is constructed even when
    [engine] or [engines] was supplied. *)
Theorem async_missing_leaves_sync_wrappers
    (kwargs : gmap string value) (σ : world) :
  sync_entry_points σ = true →
  tuple_ge (release σ) [1; 4] = true →
  attrs σ !! create_async_engine_path = None →
  ∃ σ',
    _instrument kwargs σ
    = (σ', inl (AttributeError "sqlalchemy.ext.asyncio"
                  "create_async_engine"))
    ∧ sync_wrappers_installed (kwargs_get kwargs "tracer_provider") σ σ'
    ∧ constructed σ' = constructed σ.
Proof.
  intros Hsync Hge Hnone.
  destruct (install_wrappers_sync (kwargs_get kwargs "tracer_provider") σ Hsync)
    as (σ1 & out1 & Hrun & Hinst & _ & Hraise).
  specialize (Hraise Hge). rewrite Hnone in Hraise. subst out1.
  exists σ1. rewrite (_instrument_after_install kwargs σ σ1 _ Hrun).
  split; [done|]. split; [done|].
  by apply (install_wrappers_frame _ _ _ _ Hrun).
Qed.

Lemma async_missing_leaves_sync_wrappers_witness :
  ∃ σ',
    _instrument {[ "engine" := engine_a ]} world_1_4_no_async
    = (σ', inl (AttributeError "sqlalchemy.ext.asyncio"
                  "create_async_engine"))
    ∧ is_wrapper (attrs σ' !! create_engine_path) = true
    ∧ constructed σ' = [].
Proof.
  destruct (async_missing_leaves_sync_wrappers
              {[ "engine" := engine_a ]} world_1_4_no_async)
    as (σ' & Hrun & ((f & _ & Hf) & _) & Hc).
  - vm_compute. reflexivity.
  - vm_compute. reflexivity.
  - vm_compute. reflexivity.
  - exists σ'. split; [exact Hrun|]. split; [|exact Hc]. by rewrite Hf.
Defined.

(** ** Instrumenting and uninstrumenting in sequence *)

Lemma strip_wrap_with (w : wrapper) (o : option callable) :
  strip (wrap_with w o) = o.
Proof. by destruct o. Qed.

Lemma entry_point_paths (r : list nat) :
  entry_point r create_engine_path = true
  ∧ entry_point r engine_create_engine_path = true
  ∧ entry_point r connect_path = true
  ∧ entry_point r create_async_engine_path = tuple_ge r [1; 4].
Proof.
  unfold entry_point. repeat split; path_cases. by destruct (tuple_ge r _).
Qed.

Lemma installable_ext (σ σ' : world) :
  attrs σ' = attrs σ → release σ' = release σ →
  installable σ' = installable σ.
Proof. unfold installable. by intros -> ->. Qed.

Lemma installable_lookup (σ : world) (p : string) :
  installable σ = true →
  entry_point (release σ) p = true →
  is_Some (attrs σ !! p).
Proof.
  intros Hin Hp.
  destruct (sync_entry_points_lookup σ (installable_sync σ Hin))
    as (f1 & f2 & f3 & H1 & H2 & H3).
  unfold entry_point in Hp.
  destruct (tuple_ge (release σ) [1; 4]) eqn:E.
  - pose proof (installable_async σ Hin E) as H4.
    path_cases; by eexists.
  - path_cases; by eexists.
Qed.

(** A successful [_instrument], attribute by attribute. *)
Lemma _instrument_success (kwargs : gmap string value) (σ : world) :
  installable σ = true →
  ∃ σ',
    _instrument kwargs σ = (σ', inr (options_result kwargs))
    ∧ release σ' = release σ
    ∧ constructed σ' = constructed σ ++ tracers_of (options_result kwargs)
    ∧ (∀ p, attrs σ' !! p
            = if entry_point (release σ) p
              then wrap_with
                     (wrapper_at (kwargs_get kwargs "tracer_provider") p)
                     (attrs σ !! p)
              else attrs σ !! p)
    ∧ installable σ' = true.
Proof.
  intros Hin.
  destruct (_instrument_spec kwargs σ) as (σ' & Hrun & R & C & _ & A).
  pose proof (proj2 (first_missing_installable σ) Hin) as Hfm.
  rewrite Hfm in Hrun, C. specialize (A Hfm).
  exists σ'. split; [done|]. split; [done|]. split; [done|]. split; [done|].
  destruct (entry_point_paths (release σ)) as (E1 & E2 & E3 & E4).
  assert (∀ p, entry_point (release σ) p = true → is_Some (attrs σ' !! p))
    as Hsome.
  { intros p Hp. rewrite A, Hp.
    destruct (installable_lookup σ p Hin Hp) as [f ->]. by eexists. }
  unfold installable. rewrite R.
  rewrite !bool_decide_eq_true_2 by (by apply Hsome). cbn [andb].
  destruct (tuple_ge (release σ) [1; 4]) eqn:E; [|done].
  rewrite bool_decide_eq_true_2; [done|]. apply Hsome. by rewrite E4.
Qed.

(** [_uninstrument] undoes one layer of wrappers over [σ]. *)
Lemma _uninstrument_undoes (σ σ' : world) (w : string → wrapper) :
  release σ' = release σ →
  (∀ p, attrs σ' !! p
        = if entry_point (release σ) p
          then wrap_with (w p) (attrs σ !! p) else attrs σ !! p) →
  ∃ σ'',
    _uninstrument σ' = (σ'', inr tt)
    ∧ attrs σ'' = attrs σ
    ∧ release σ'' = release σ
    ∧ constructed σ'' = constructed σ'.
Proof.
  intros R A.
  destruct (_uninstrument_spec σ') as (σ'' & Hrun & R' & C' & A').
  exists σ''. split; [done|]. split; [|split; [congruence | done]].
  apply map_eq. intros p. rewrite A', A, R.
  destruct (entry_point (release σ) p); [apply strip_wrap_with | done].
Qed.

(** Instrumenting twice stacks a second wrapper on each entry point, and
    one [_uninstrument] then removes only the outer layer: the attributes
    are those after the first call, still wrapped.  A second
    [_uninstrument] restores the attributes from before. *)
Theorem double_instrument_needs_two_uninstruments
    (kwargs1 kwargs2 : gmap string value) (σ : world) :
  installable σ = true →
  ∃ σ1 σ2 σ3 σ4,
    _instrument kwargs1 σ = (σ1, inr (options_result kwargs1))
    ∧ _instrument kwargs2 σ1 = (σ2, inr (options_result kwargs2))
    ∧ (∀ p, entry_point (release σ) p = true →
         ∃ f, attrs σ !! p = Some f
              ∧ attrs σ2 !! p
                = Some (FunctionWrapper
                          (FunctionWrapper f
                             (wrapper_at
                                (kwargs_get kwargs1 "tracer_provider") p))
                          (wrapper_at
                             (kwargs_get kwargs2 "tracer_provider") p)))
    ∧ _uninstrument σ2 = (σ3, inr tt)
    ∧ attrs σ3 = attrs σ1
    ∧ _uninstrument σ3 = (σ4, inr tt)
    ∧ attrs σ4 = attrs σ.
Proof.
  intros Hin.
  destruct (_instrument_success kwargs1 σ Hin)
    as (σ1 & Hrun1 & R1 & _ & A1 & Hin1).
  destruct (_instrument_success kwargs2 σ1 Hin1)
    as (σ2 & Hrun2 & R2 & _ & A2 & _).
  destruct (_uninstrument_undoes σ1 σ2 _ R2 A2)
    as (σ3 & Hun3 & A3 & R3 & _).
  assert (∀ p, attrs σ3 !! p
               = if entry_point (release σ) p
                 then wrap_with
                        (wrapper_at (kwargs_get kwargs1 "tracer_provider") p)
                        (attrs σ !! p)
                 else attrs σ !! p) as A3'.
  { intros p. by rewrite A3, A1. }
  assert (release σ3 = release σ) as R3' by congruence.
  destruct (_uninstrument_undoes σ σ3 _ R3' A3')
    as (σ4 & Hun4 & A4 & _ & _).
  exists σ1, σ2, σ3, σ4. repeat split; try done.
  intros p Hp. destruct (installable_lookup σ p Hin Hp) as [f Hf].
  exists f. split; [done|]. by rewrite A2, R1, Hp, A1, Hp, Hf.
Qed.

Lemma double_instrument_needs_two_uninstruments_witness :
  ∃ σ1 σ2 σ3 σ4,
    _instrument ∅ world_2_0 = (σ1, inr RNone)
    ∧ _instrument ∅ σ1 = (σ2, inr RNone)
    ∧ _uninstrument σ2 = (σ3, inr tt)
    ∧ attrs σ3 = attrs σ1
    ∧ _uninstrument σ3 = (σ4, inr tt)
    ∧ attrs σ4 = attrs world_2_0.
Proof.
  destruct (double_instrument_needs_two_uninstruments ∅ ∅ world_2_0)
    as (σ1 & σ2 & σ3 & σ4 & H1 & H2 & _ & H3 & A3 & H4 & A4).
  - vm_compute. reflexivity.
  - exists σ1, σ2, σ3, σ4. by repeat split.
Defined.

(** Instrumenting again after [_uninstrument] gives the attributes a
    first instrumentation with the new options gives: a single layer of
    wrappers.  The EngineTracers constructed by the first call are still
    there, followed by those of the second. *)
Theorem reinstrument_after_uninstrument
    (kwargs kwargs' : gmap string value) (σ : world) :
  installable σ = true →
  ∃ σ1 σ2 σ3,
    _instrument kwargs σ = (σ1, inr (options_result kwargs))
    ∧ _uninstrument σ1 = (σ2, inr tt)
    ∧ _instrument kwargs' σ2 = (σ3, inr (options_result kwargs'))
    ∧ attrs σ3 = attrs (_instrument kwargs' σ).1
    ∧ constructed σ3
      = constructed σ ++ tracers_of (options_result kwargs)
        ++ tracers_of (options_result kwargs').
Proof.
  intros Hin.
  destruct (_instrument_success kwargs σ Hin)
    as (σ1 & Hrun1 & R1 & C1 & A1 & _).
  destruct (_uninstrument_undoes σ σ1 _ R1 A1)
    as (σ2 & Hun & A2 & R2 & C2).
  assert (installable σ2 = true) as Hin2
    by (by rewrite (installable_ext σ σ2 A2 R2)).
  destruct (_instrument_success kwargs' σ2 Hin2)
    as (σ3 & Hrun3 & R3 & C3 & A3 & _).
  destruct (_instrument_success kwargs' σ Hin)
    as (σd & Hrund & _ & _ & Ad & _).
  exists σ1, σ2, σ3. split; [done|]. split; [done|]. split; [done|]. split.
  - rewrite Hrund. cbn [fst]. apply map_eq. intros p.
    by rewrite A3, Ad, A2, R2.
  - by rewrite C3, C2, C1, <- app_assoc.
Qed.

Lemma reinstrument_after_uninstrument_witness :
  ∃ σ1 σ2 σ3,
    _instrument {[ "engine" := engine_a ]} world_2_0
    = (σ1, inr (RTracer tracer_plain))
    ∧ _uninstrument σ1 = (σ2, inr tt)
    ∧ _instrument ∅ σ2 = (σ3, inr RNone)
    ∧ attrs σ3 = attrs (_instrument ∅ world_2_0).1
    ∧ constructed σ3 = [tracer_plain].
Proof.
  destruct (reinstrument_after_uninstrument
              {[ "engine" := engine_a ]} ∅ world_2_0)
    as (σ1 & σ2 & σ3 & H1 & H2 & H3 & A & C).
  - vm_compute. reflexivity.
  - exists σ1, σ2, σ3. by repeat split.
Defined.

(** ** The release comparison is an order *)

Lemma tuple_ge_trans (a : list nat) :
  ∀ b c, tuple_ge a b = true → tuple_ge b c = true → tuple_ge a c = true.
Proof.
  induction a as [|x a IH]; intros [|y b] [|z c]; cbn [tuple_ge]; try done.
  destruct (Nat.eqb_spec x y) as [->|Hxy].
  - destruct (Nat.eqb_spec y z) as [->|Hyz]; [apply IH | done].
  - intros Hyx%Nat.leb_le.
    destruct (Nat.eqb_spec y z) as [->|Hyz].
    + intros _. destruct (Nat.eqb_spec x z); [lia|]. apply Nat.leb_le. lia.
    + intros Hzy%Nat.leb_le.
      destruct (Nat.eqb_spec x z); [lia|]. apply Nat.leb_le. lia.
Qed.

(** The gate is monotone in the release: a release that compares >= to one
    whose [create_async_engine] is wrapped has it wrapped as well; so a
    micro or later component never takes a release below the gate. *)
Theorem version_gate_monotone (r r' : list nat) :
  tuple_ge r [1; 4] = true →
  tuple_ge r' r = true →
  tuple_ge r' [1; 4] = true.
Proof.
  intros Hr Hr'. by apply (tuple_ge_trans r' r [1; 4]).
Qed.

Lemma version_gate_monotone_witness : tuple_ge [2; 0; 0] [1; 4] = true.
Proof.
  apply (version_gate_monotone [1; 4; 52] [2; 0; 0]); reflexivity.
Defined.

(** ** How the options are read *)

Lemma wrapper_at_provider (tp : value) (p : string) :
  wrapper_provider (wrapper_at tp p) = tp.
Proof. unfold wrapper_at. by repeat case_bool_decide. Qed.

(** One call uses one tracer provider throughout: every wrapper it
    installs closes over [kwargs.get("tracer_provider")], and every
    EngineTracer it returns has a tracer made from that same provider. *)
Theorem tracer_provider_used_throughout
    (kwargs : gmap string value) (σ : world) :
  installable σ = true →
  ∃ σ' r,
    _instrument kwargs σ = (σ', inr r)
    ∧ (∀ p, entry_point (release σ) p = true →
         ∃ f w, attrs σ' !! p = Some (FunctionWrapper f w)
                ∧ wrapper_provider w = kwargs_get kwargs "tracer_provider")
    ∧ (∀ t, t ∈ tracers_of r →
         provider (tracer t) = kwargs_get kwargs "tracer_provider").
Proof.
  intros Hin.
  destruct (_instrument_success kwargs σ Hin) as (σ' & Hrun & _ & _ & A & _).
  exists σ', (options_result kwargs). split; [done|]. split.
  - intros p Hp. destruct (installable_lookup σ p Hin Hp) as [f Hf].
    eexists f, _. rewrite A, Hp, Hf. split; [reflexivity|].
    apply wrapper_at_provider.
  - intros t Ht. by destruct (tracers_of_options_result kwargs t Ht) as [e ->].
Qed.

Lemma tracer_provider_used_throughout_witness :
  ∃ σ' r,
    _instrument
      (<[ "tracer_provider" := provider_p ]>
         {[ "engines" := VList [engine_a; engine_b] ]}) world_2_0
    = (σ', inr r)
    ∧ ∀ t, t ∈ tracers_of r → provider (tracer t) = provider_p.
Proof.
  destruct (tracer_provider_used_throughout
              (<[ "tracer_provider" := provider_p ]>
                 {[ "engines" := VList [engine_a; engine_b] ]}) world_2_0)
    as (σ' & r & Hrun & _ & Ht).
  - vm_compute. reflexivity.
  - exists σ', r. split; [exact Hrun|]. intros t Hin. by rewrite (Ht t Hin).
Defined.

(** With neither [engine] nor [engines], [enable_commenter] and
    [commenter_options] have no effect at all: the wrappers are given the
    tracer provider only, so the call leaves the same world and returns
    the same result whatever the two options hold. *)
Theorem commenter_options_ignored_without_engine
    (kwargs : gmap string value) (ec co : value) (σ : world) :
  kwargs_get kwargs "engine" = VNone →
  kwargs_get kwargs "engines" = VNone →
  _instrument
    (<[ "enable_commenter" := ec ]> (<[ "commenter_options" := co ]> kwargs))
    σ
  = _instrument kwargs σ.
Proof.
  intros He Hes.
  set (kwargs' := <[ "enable_commenter" := ec ]>
                    (<[ "commenter_options" := co ]> kwargs)).
  assert (∀ k, k ≠ "enable_commenter" → k ≠ "commenter_options" →
               kwargs_get kwargs' k = kwargs_get kwargs k) as Hget.
  { intros k H1 H2. unfold kwargs_get, kwargs'.
    by rewrite !lookup_insert_ne by done. }
  rewrite !_instrument_split. unfold bind.
  rewrite (Hget "tracer_provider") by done.
  destruct (install_wrappers _ σ) as [σ1 [e|[]]]; [done|].
  rewrite !instrument_options_run. unfold options_result.
  rewrite (Hget "engine"), (Hget "engines") by done.
  by rewrite He, Hes.
Qed.

Lemma commenter_options_ignored_without_engine_witness :
  _instrument
    (<[ "enable_commenter" := VBool true ]>
       (<[ "commenter_options" := VDict [("db_driver", VBool false)] ]> ∅))
    world_2_0
  = _instrument ∅ world_2_0.
Proof.
  apply (commenter_options_ignored_without_engine
           ∅ (VBool true) (VDict [("db_driver", VBool false)]) world_2_0).
  - reflexivity.
  - reflexivity.
Defined.

(** Passing None for [engine], [engines] or [tracer_provider] is the same
    as leaving the option out. *)
Theorem explicit_none_is_omitted
    (kwargs : gmap string value) (key : string) (σ : world) :
  key = "engine" ∨ key = "engines" ∨ key = "tracer_provider" →
  kwargs !! key = Some VNone →
  _instrument kwargs σ = _instrument (delete key kwargs) σ.
Proof.
  intros Hkey Hnone.
  assert (∀ k, kwargs_get (delete key kwargs) k = kwargs_get kwargs k)
    as Hget.
  { intros k. unfold kwargs_get. destruct (decide (k = key)) as [->|Hne].
    - by rewrite lookup_delete_eq, Hnone.
    - by rewrite lookup_delete_ne. }
  assert (∀ k d, k ≠ key →
            kwargs_get_default (delete key kwargs) k d
            = kwargs_get_default kwargs k d) as Hdef.
  { intros k d Hne. unfold kwargs_get_default. by rewrite lookup_delete_ne. }
  assert ("enable_commenter" ≠ key ∧ "commenter_options" ≠ key) as [N1 N2]
    by (destruct Hkey as [-> | [-> | ->]]; by split).
  unfold _instrument. cbn zeta.
  rewrite !Hget. rewrite !(Hdef "enable_commenter") by done.
  by rewrite !(Hdef "commenter_options") by done.
Qed.

Lemma explicit_none_is_omitted_witness :
  _instrument
    (<[ "engine" := VNone ]> {[ "engines" := VList [engine_a] ]}) world_2_0
  = _instrument
      (delete "engine"
         (<[ "engine" := VNone ]> {[ "engines" := VList [engine_a] ]}))
      world_2_0.
Proof.
  apply (explicit_none_is_omitted
           (<[ "engine" := VNone ]> {[ "engines" := VList [engine_a] ]})
           "engine" world_2_0).
  - by left.
  - vm_compute. reflexivity.
Defined.

Lemma tuple_ge_1_4_spec_witness : tuple_ge [1; 4; 49] [1; 4] = true.
Proof.
  apply (proj2 (tuple_ge_1_4_spec [1; 4; 49])).
  exists 1, [4; 49]. split; [reflexivity|]. right. split; [reflexivity|].
  exists 4, [49]. split; [reflexivity | lia].
Defined.
